(** * Legal AI Assistant: a shallow embedding of the search front end,
      the case-law fallback chain, the result cache, the LLM fallback
      client and the LangGraph workflow, with the properties stated about
      them.

    Layout: Part I holds the embedding, one module per source unit;
    Part II holds the lemmas and theorems. *)

From Stdlib Require Import List ZArith NArith Bool Lia String Ascii QArith Lqa.
From Stdlib Require Import Sorted Permutation DecimalN.
From stdpp Require Import gmap strings.
Import ListNotations.

Local Open Scope nat_scope.

(* ===================================================================== *)
(** * Part I: the embedding                                               *)
(* ===================================================================== *)

(** ** JavaScript strings

    A JavaScript string is a sequence of UTF-16 code units.  [===] on
    strings is equality of these sequences, a string is truthy exactly
    when it is not empty, and [String.prototype.trim] strips the code
    units of the WhiteSpace and LineTerminator productions from both
    ends. *)
Module JS.

Definition jsstring : Type := list N.

Definition streq (a b : jsstring) : bool := bool_decide (a = b).

(** Truthiness of a string value: [''] is the only falsy string. *)
Definition truthy (s : jsstring) : bool :=
  match s with
  | [] => false
  | _ :: _ => true
  end.

(** WhiteSpace: TAB, VT, FF, SP, NBSP, ZWNBSP and the category Zs;
    LineTerminator: LF, CR, LS, PS. *)
Definition is_trim_space (c : N) : bool :=
  ((9 <=? c) && (c <=? 13) || (c =? 32) || (c =? 160) || (c =? 5760)
   || (8192 <=? c) && (c <=? 8202) || (c =? 8232) || (c =? 8233)
   || (c =? 8239) || (c =? 8287) || (c =? 12288) || (c =? 65279))%N.

Fixpoint trimStart (s : jsstring) : jsstring :=
  match s with
  | [] => []
  | c :: rest => if is_trim_space c then trimStart rest else s
  end.

Definition trimEnd (s : jsstring) : jsstring := rev (trimStart (rev s)).

Definition trim (s : jsstring) : jsstring := trimEnd (trimStart s).

(** Code units of an ASCII literal. *)
Fixpoint lit (s : string) : jsstring :=
  match s with
  | EmptyString => []
  | String a rest => N_of_ascii a :: lit rest
  end.

(** [Number.prototype.toString] on a non-negative integer: its decimal
    digits. *)
Fixpoint uint_units (d : Decimal.uint) : jsstring :=
  match d with
  | Decimal.Nil => []
  | Decimal.D0 r => 48%N :: uint_units r
  | Decimal.D1 r => 49%N :: uint_units r
  | Decimal.D2 r => 50%N :: uint_units r
  | Decimal.D3 r => 51%N :: uint_units r
  | Decimal.D4 r => 52%N :: uint_units r
  | Decimal.D5 r => 53%N :: uint_units r
  | Decimal.D6 r => 54%N :: uint_units r
  | Decimal.D7 r => 55%N :: uint_units r
  | Decimal.D8 r => 56%N :: uint_units r
  | Decimal.D9 r => 57%N :: uint_units r
  end.

Definition number_toString (n : N) : jsstring := uint_units (N.to_uint n).

End JS.

(** ** components/QueryInput.tsx *)
Module QueryInput.
Import JS.

(** The component's only observable effect is the sequence of calls it
    makes to the [onSearch] prop; each handler returns the arguments of
    the calls it makes, in order. *)
Definition onSearch_calls : Type := list jsstring.

(** [handleSearch]: [if (query.trim()) { onSearch(query) }]. *)
Definition handleSearch (query : jsstring) : onSearch_calls :=
  if truthy (trim query) then [query] else [].

(** [handleKeyPress]: [if (e.key === 'Enter' && query.trim()) { onSearch(query) }]. *)
Definition handleKeyPress (key : jsstring) (query : jsstring) : onSearch_calls :=
  if streq key (lit "Enter") && truthy (trim query) then [query] else [].

(** The button's [disabled] prop: [loading || !query.trim()]. *)
Definition button_disabled (loading : bool) (query : jsstring) : bool :=
  loading || negb (truthy (trim query)).

(** A click reaches [onClick] only when the button is not disabled. *)
Definition click (loading : bool) (query : jsstring) : onSearch_calls :=
  if button_disabled loading query then [] else handleSearch query.

End QueryInput.

(** ** hooks/useSearchResults.ts *)
Module SearchResults.
Import JS.

Inductive result_type : Type := norm | case.

Record SearchResult : Type := {
  id : jsstring;
  title : jsstring;
  type : result_type;
  description : option jsstring;
  source : option jsstring;
  date : option jsstring;
  number : option jsstring
}.

(** The three [useState] cells of the hook. *)
Record HookState : Type := {
  results : list SearchResult;
  loading : bool;
  error : option jsstring
}.

Definition setResults (r : list SearchResult) (st : HookState) : HookState :=
  {| results := r; loading := loading st; error := error st |}.
Definition setLoading (b : bool) (st : HookState) : HookState :=
  {| results := results st; loading := b; error := error st |}.
Definition setError (e : option jsstring) (st : HookState) : HookState :=
  {| results := results st; loading := loading st; error := e |}.

(** A thrown value: an [Error] instance with its message, or anything
    else. *)
Inductive thrown : Type :=
| ThrownError (message : jsstring)
| ThrownOther.

(** What [await response.json()] yields: a rejection, a nullish value
    (reading [.results] of it throws a TypeError with the engine's
    message), or an object whose [results] property is falsy ([None]) or
    a list. *)
Inductive json_outcome : Type :=
| JsonRejects (e : thrown)
| JsonNullish (typeErrorMessage : jsstring)
| JsonObject (data_results : option (list SearchResult)).

(** What [await fetch(...)] yields. *)
Inductive fetch_outcome : Type :=
| FetchRejects (e : thrown)
| FetchResponse (ok : bool) (status : N) (body : json_outcome).

(** "Ошибка сервера: " *)
Definition server_error_prefix : jsstring :=
  [1054; 1096; 1080; 1073; 1082; 1072; 32;
   1089; 1077; 1088; 1074; 1077; 1088; 1072; 58; 32]%N.

(** "Произошла ошибка" *)
Definition generic_error_message : jsstring :=
  [1055; 1088; 1086; 1080; 1079; 1086; 1096; 1083; 1072; 32;
   1086; 1096; 1080; 1073; 1082; 1072]%N.

(** The [try] block up to its first throw: either the value handed to
    [setResults] or the thrown value. *)
Definition try_block (o : fetch_outcome) : list SearchResult + thrown :=
  match o with
  | FetchRejects e => inr e
  | FetchResponse ok status body =>
      if negb ok
      then inr (ThrownError (server_error_prefix ++ number_toString status))
      else match body with
           | JsonRejects e => inr e
           | JsonNullish m => inr (ThrownError m)
           | JsonObject (Some rs) => inl rs
           | JsonObject None => inl []
           end
  end.

(** [err instanceof Error ? err.message : 'Произошла ошибка'] *)
Definition error_text (e : thrown) : jsstring :=
  match e with
  | ThrownError m => m
  | ThrownOther => generic_error_message
  end.

(** One call of [search], given what the network did. *)
Definition search (o : fetch_outcome) (st : HookState) : HookState :=
  let st1 := setError None (setLoading true st) in
  let st2 :=
    match try_block o with
    | inl rs => setResults rs st1
    | inr e => setResults [] (setError (Some (error_text e)) st1)
    end in
  setLoading false st2.

(** The request succeeded: the fetch resolved with an ok status and a
    JSON object.  Every other outcome is a failure (a rejected fetch, a
    non-ok status, or a throw while reading the body). *)
Definition succeeded (o : fetch_outcome) : option (option (list SearchResult)) :=
  match o with
  | FetchResponse true _ (JsonObject d) => Some d
  | _ => None
  end.

End SearchResults.

(** ** hooks/useSearchHistory.ts *)
Module SearchHistory.
Import JS.

Definition MAX_HISTORY : nat := 10.

(** The hook's state cell and the parsed value stored under
    [HISTORY_KEY] in [localStorage] ([None]: no item). *)
Record HistoryState : Type := {
  history : list jsstring;
  saved : option (list jsstring)
}.

(** The updater passed to [setHistory]:
    [[query, ...prev.filter((item) => item !== query)].slice(0, MAX_HISTORY)]. *)
Definition updated (query : jsstring) (prev : list jsstring) : list jsstring :=
  let filtered := List.filter (fun item => negb (streq item query)) prev in
  firstn MAX_HISTORY (query :: filtered).

Definition addToHistory (query : jsstring) (st : HistoryState) : HistoryState :=
  let u := updated query (history st) in
  {| history := u; saved := Some u |}.

Definition clearHistory (st : HistoryState) : HistoryState :=
  {| history := []; saved := None |}.

(** The mount effect: when the store holds an item, the state becomes
    whatever [JSON.parse] yields for it, unchecked, or the empty list
    when parsing throws.  [stored] is [None] when there is no item, and
    otherwise the list the item parses to, if it parses. *)
Definition loadSaved (stored : option (option (list jsstring))) (st : HistoryState)
    : HistoryState :=
  match stored with
  | None => st
  | Some (Some parsed) => {| history := parsed; saved := Some parsed |}
  | Some None => {| history := []; saved := saved st |}
  end.

Definition initialHistory : HistoryState := {| history := []; saved := None |}.

End SearchHistory.

(** ** Python values shared by the back-end excerpts *)
Module Py.

(** A case record as the parser yields it (section 2.4 of the data-source
    guide prints these four attributes). *)
Record CaseRecord : Type := {
  case_number : string;
  court : string;
  parties : list string;
  summary : string
}.

(** The result of a call that may raise: [except Exception] catches every
    [Raises]. *)
Inductive outcome (A : Type) : Type :=
| Returns (value : A)
| Raises (exc : string).
Arguments Returns {A} value.
Arguments Raises {A} exc.

(** Truthiness of a value that is [None] or a list: only a list with at
    least one element is truthy. *)
Definition truthy_list {A} (v : option (list A)) : bool :=
  match v with
  | Some (_ :: _) => true
  | _ => false
  end.

End Py.

(** ** The fallback chain of [search_cases] (data-source guide, 4.1-4.2) *)
Module CaseSearch.
Import Py.

Inductive source : Type := kad_arbitr | sudact | rospravosudie.

Definition SOURCES_PRIORITY : list source := [kad_arbitr; sudact; rospravosudie].

(** What the three external searches do for the query at hand:
    [parser.search_cases(query)], [search_sudact(query)] and
    [search_rospravosud(query)].  A search returns [None] or a list. *)
Definition sources : Type := source -> outcome (option (list CaseRecord)).

(** The returned state update [{"cases": ...}]. *)
Record cases_update : Type := { cases : option (list CaseRecord) }.

(** One of the first two [try] blocks:
    [cases = f(query); if cases: return {"cases": cases}] under
    [except Exception: pass].  [Some v]: the function returns
    [{"cases": v}] from inside the block; [None]: control falls through. *)
Definition try_and_return (w : sources) (s : source) : option (option (list CaseRecord)) :=
  match w s with
  | Returns v => if truthy_list v then Some v else None
  | Raises _ => None
  end.

(** The third [try] block: [cases = search_rospravosud(query)] under
    [except Exception: pass]; it has no [return].  The value left in the
    local variable [cases], which started as the empty list. *)
Definition try_and_assign (w : sources) (s : source) : option (list CaseRecord) :=
  match w s with
  | Returns v => v
  | Raises _ => Some []
  end.

(** [search_cases], together with the sources it called, in call order.
    The final statement is [return {"cases": []}]: the local variable is
    not read. *)
Definition search_cases (w : sources) : cases_update * list source :=
  match try_and_return w kad_arbitr with
  | Some v => ({| cases := v |}, [kad_arbitr])
  | None =>
      match try_and_return w sudact with
      | Some v => ({| cases := v |}, [kad_arbitr; sudact])
      | None =>
          let _cases := try_and_assign w rospravosudie in
          ({| cases := Some [] |}, [kad_arbitr; sudact; rospravosudie])
      end
  end.

(** A sample run: one record, found by the third source only. *)
Definition sample_case : CaseRecord :=
  {| case_number := "A40-123456/2024"; court := "AS Moscow";
     parties := ["OOO Alpha"; "OOO Beta"]; summary := "penalty recovered" |}.

(** The first source raises and the second returns one record. *)
Definition only_sudact_answers : sources :=
  fun s =>
    match s with
    | kad_arbitr => Raises "ConnectTimeout"
    | sudact => Returns (Some [sample_case])
    | rospravosudie => Raises "HTTP 503"
    end.

(** The first two sources raise and the third returns one record. *)
Definition only_rospravosudie_answers : sources :=
  fun s =>
    match s with
    | kad_arbitr => Raises "ConnectTimeout"
    | sudact => Raises "HTTP 503"
    | rospravosudie => Returns (Some [sample_case])
    end.

End CaseSearch.

(** ** The Redis cache (data-source guide, 5.1-5.2) *)
Module Cache.
Import Py.

(** The text [json.dumps] produces for a list of records.  The text of a
    list is never the empty string, so a stored text is always truthy,
    and [json.loads] gives the list back. *)
Inductive json_text : Type := JsonList (l : list CaseRecord).

Definition json_dumps (l : list CaseRecord) : json_text := JsonList l.
Definition json_loads (t : json_text) : list CaseRecord :=
  match t with JsonList l => l end.

(** A Redis entry written by [SETEX]: the value and the instant (in
    seconds) at which the key expires. *)
Record entry : Type := { value : json_text; expires_at : Z }.

(** [redis_client] is a [gmap string entry]: the keys and their entries.
    Expiry is lazy: an entry whose instant has passed is no longer
    visible to [GET]. *)
Definition setex (key : string) (ttl : Z) (v : json_text) (now : Z) (db : gmap string entry) : gmap string entry :=
  <[key := {| value := v; expires_at := (now + ttl)%Z |}]> db.

Definition get (key : string) (now : Z) (db : gmap string entry) : option json_text :=
  match (db : gmap string entry) !! key with
  | Some e => if (now <? expires_at e)%Z then Some (value e) else None
  | None => None
  end.

(** The key [f"search:{query}"]. *)
Definition search_key (query : string) : string := String.append "search:" query.

Definition default_ttl : Z := 3600.

(** [cache_search_result(query, result, ttl=3600)] *)
Definition cache_search_result (query : string) (result : list CaseRecord)
    (ttl : Z) (now : Z) (db : gmap string entry) : gmap string entry :=
  setex (search_key query) ttl (json_dumps result) now db.

(** [get_cached_result(query)]:
    [json.loads(result) if result else None]. *)
Definition get_cached_result (query : string) (now : Z) (db : gmap string entry)
    : option (list CaseRecord) :=
  match get (search_key query) now db with
  | Some t => Some (json_loads t)
  | None => None
  end.

(** What [KadParser._search] does for a query at an instant. *)
Definition searcher : Type := string -> Z -> outcome (list CaseRecord).

(** The result of one call of [KadParser.search_cases]: what it returns
    or raises, the cache afterwards, and the number of outbound
    [_search] calls it made. *)
Record call_result : Type := {
  returned : outcome (list CaseRecord);
  db_after : gmap string entry;
  outbound_calls : nat
}.

(** [KadParser.search_cases] with the cache added (5.2). *)
Definition search_cases (_search : searcher) (query : string) (now : Z) (db : gmap string entry)
    : call_result :=
  let cached := get_cached_result query now db in
  if truthy_list cached then
    {| returned := Returns (match cached with Some l => l | None => [] end);
       db_after := db; outbound_calls := 0 |}
  else
    match _search query now with
    | Raises e => {| returned := Raises e; db_after := db; outbound_calls := 1 |}
    | Returns results =>
        {| returned := Returns results;
           db_after := cache_search_result query results default_ttl now db;
           outbound_calls := 1 |}
    end.

(** A sample run: the site has no match at instant 0 and one match at
    instant 10. *)
Definition late_match : CaseRecord :=
  {| case_number := "A40-1/2025"; court := "AS Moscow";
     parties := ["OOO Alpha"]; summary := "claim granted" |}.

Definition empty_then_match : searcher :=
  fun _ now => if (now <? 10)%Z then Returns [] else Returns [late_match].

End Cache.

(** ** The LLM clients (fallback report and fallback guide) *)
Module LLM.
Import Py.

(** The unified response: the text and the provider that produced it. *)
Record LLMResponse : Type := { content : string; provider : string }.

(** What a run leaves behind: each HTTP attempt and each pause between
    attempts, tagged with the provider's name. *)
Inductive event : Type :=
| Attempt (provider_name : string) (attempt_no : nat)
| Backoff (provider_name : string) (seconds : nat).

(** A computation over the outside world [W]: its result, the world
    afterwards, and the events it produced. *)
Definition M (W A : Type) : Type := W -> A * W * list event.

Definition ret {W A} (a : A) : M W A := fun w => (a, w, []).

Definition bind {W A B} (m : M W A) (k : A -> M W B) : M W B :=
  fun w =>
    let '(a, w1, log1) := m w in
    let '(b, w2, log2) := k a w1 in
    (b, w2, log1 ++ log2).

Definition tell {W} (e : event) : M W unit := fun w => (tt, w, [e]).

Notation "'do' x <- m ; k" := (bind m (fun x => k))
  (at level 10, x name, m at level 100, k at level 200).
Notation "'exec' m ; k" := (bind m (fun _ => k))
  (at level 10, m at level 100, k at level 200).

(** One HTTP request to a provider: the generated text, or a failure (an
    error status, a timeout) with its reason. *)
Definition transport (W : Type) : Type :=
  option string -> string -> W -> outcome string * W.

Record ProviderClient (W : Type) : Type := {
  name : string;
  request : transport W;
  backoff_base : nat
}.
Arguments name {W} _.
Arguments request {W} _.
Arguments backoff_base {W} _.

Definition OpenRouterClient {W} (api : transport W) : ProviderClient W :=
  {| name := "openrouter"; request := api; backoff_base := 1 |}.
Definition PerplexityClient {W} (api : transport W) : ProviderClient W :=
  {| name := "perplexity"; request := api; backoff_base := 1 |}.
Definition NewProviderClient {W} (api : transport W) : ProviderClient W :=
  {| name := "new_provider"; request := api; backoff_base := 1 |}.

Definition MAX_ATTEMPTS : nat := 3.

(** The pause after failed attempt number [k] (counted from 0). *)
Definition backoff_delay {W} (c : ProviderClient W) (k : nat) : nat :=
  backoff_base c * 2 ^ k.

Definition do_request {W} (c : ProviderClient W) (system_prompt : option string)
    (prompt : string) : M W (outcome string) :=
  fun w => let '(r, w1) := request c system_prompt prompt w in (r, w1, []).

(** Modelled from the spec: the retry loop of a provider client
    ([src/llm/client.py] and [src/llm/perplexity_client.py] are not among
    the sources; the report states "retry logic: 3 attempts with
    exponential delay").  Attempt number [k] is made; a failure is
    followed by a pause and the next attempt while [retries_left] allows,
    and is raised otherwise.  A response is tagged with the client's
    name. *)
Fixpoint attempt_from {W} (c : ProviderClient W) (system_prompt : option string)
    (prompt : string) (k retries_left : nat) : M W (outcome LLMResponse) :=
  exec tell (Attempt (name c) k);
  do r <- do_request c system_prompt prompt;
  match r with
  | Returns text => ret (Returns {| content := text; provider := name c |})
  | Raises reason =>
      match retries_left with
      | 0 => ret (Raises reason)
      | S n =>
          exec tell (Backoff (name c) (backoff_delay c k));
          attempt_from c system_prompt prompt (S k) n
      end
  end.

(** [client.generate(prompt, system_prompt)] of a single provider. *)
Definition client_generate {W} (c : ProviderClient W) (system_prompt : option string)
    (prompt : string) : M W (outcome LLMResponse) :=
  attempt_from c system_prompt prompt 0 (MAX_ATTEMPTS - 1).

(** The provider fails all its attempts: three requests in a row fail,
    the last with reason [e]. *)
Definition fails_all_attempts {W} (c : ProviderClient W) (system_prompt : option string)
    (prompt : string) (w0 w3 : W) (e : string) : Prop :=
  exists e0 e1 w1 w2,
    request c system_prompt prompt w0 = (Raises e0, w1) /\
    request c system_prompt prompt w1 = (Raises e1, w2) /\
    request c system_prompt prompt w2 = (Raises e, w3).

(** The error [MultiLLMClient.generate] raises: the RuntimeError
    "all LLM providers are unavailable" with the description of the
    errors, one per provider tried, in order. *)
Record RuntimeError : Type := { provider_errors : list (string * string) }.

Record MultiLLMClient (W : Type) : Type := {
  primary : ProviderClient W;
  fallback : ProviderClient W
}.
Arguments primary {W} _.
Arguments fallback {W} _.

(** Modelled from the spec: [MultiLLMClient.generate] as the report gives
    its algorithm ([src/llm/client.py] is not among the sources): try the
    primary; on error, when [use_fallback] is set, try the fallback and
    return its response; when that fails too, raise a RuntimeError
    describing all errors. *)
Definition generate {W} (mc : MultiLLMClient W) (system_prompt : option string)
    (prompt : string) (use_fallback : bool) : M W (LLMResponse + RuntimeError) :=
  do r1 <- client_generate (primary mc) system_prompt prompt;
  match r1 with
  | Returns resp => ret (inl resp)
  | Raises e1 =>
      if use_fallback then
        do r2 <- client_generate (fallback mc) system_prompt prompt;
        match r2 with
        | Returns resp => ret (inl resp)
        | Raises e2 =>
            ret (inr {| provider_errors :=
                          [(name (primary mc), e1); (name (fallback mc), e2)] |})
        end
      else ret (inr {| provider_errors := [(name (primary mc), e1)] |})
  end.

(** The three-provider client of the guide's extension section. *)
Record MultiLLMClient3 (W : Type) : Type := {
  primary_client : ProviderClient W;
  fallback_client : ProviderClient W;
  secondary_fallback : ProviderClient W
}.
Arguments primary_client {W} _.
Arguments fallback_client {W} _.
Arguments secondary_fallback {W} _.

(** Its [generate]: nested [try]/[except Exception]; what the third
    client returns or raises is the result. *)
Definition generate3 {W} (mc : MultiLLMClient3 W) (system_prompt : option string)
    (prompt : string) : M W (outcome LLMResponse) :=
  do r1 <- client_generate (primary_client mc) system_prompt prompt;
  match r1 with
  | Returns resp => ret (Returns resp)
  | Raises _ =>
      do r2 <- client_generate (fallback_client mc) system_prompt prompt;
      match r2 with
      | Returns resp => ret (Returns resp)
      | Raises _ => client_generate (secondary_fallback mc) system_prompt prompt
      end
  end.

(** Counting in a log. *)
Definition attempts_of (provider_name : string) (log : list event) : nat :=
  length (List.filter (fun e => match e with
                                | Attempt p _ => String.eqb p provider_name
                                | Backoff _ _ => false
                                end) log).

Definition backoffs_of (provider_name : string) (log : list event) : list nat :=
  flat_map (fun e => match e with
                     | Backoff p d => if String.eqb p provider_name then [d] else []
                     | Attempt _ _ => []
                     end) log.

Definition event_provider (e : event) : string :=
  match e with
  | Attempt p _ => p
  | Backoff p _ => p
  end.

(** Three attempts with the two pauses between them. *)
Definition exhausted_log {W} (c : ProviderClient W) : list event :=
  [Attempt (name c) 0; Backoff (name c) (backoff_delay c 0);
   Attempt (name c) 1; Backoff (name c) (backoff_delay c 1);
   Attempt (name c) 2].

(** Sample worlds.  The world is the number of requests made so far. *)
Definition always_fails (reason : string) : transport nat :=
  fun _ _ w => (Raises reason, S w).

Definition always_answers (text : string) : transport nat :=
  fun _ _ w => (Returns text, S w).

Definition all_down : MultiLLMClient3 nat :=
  {| primary_client := OpenRouterClient (always_fails "timeout");
     fallback_client := PerplexityClient (always_fails "HTTP 401");
     secondary_fallback := NewProviderClient (always_fails "HTTP 503") |}.

Definition primary_down : MultiLLMClient nat :=
  {| primary := OpenRouterClient (always_fails "timeout");
     fallback := PerplexityClient (always_answers "Article 330") |}.

End LLM.

(** ** The LangGraph workflow (integration guide, audit report) *)
Module Workflow.
Import Py.

(** One found norm or case: a [dict]. *)
Definition evidence : Type := gmap string string.

(** [AgentState] is a [TypedDict] with [total=False]: every key may be
    absent ([None]). *)
Record AgentState : Type := {
  query : option string;
  law_type : option string;
  norms : option (list evidence);
  cases : option (list CaseRecord);
  answer : option string;
  trace : option (list string);
  error : option string
}.

Definition initial (q : string) : AgentState :=
  {| query := Some q; law_type := None; norms := None; cases := None;
     answer := None; trace := None; error := None |}.

(** Reads with a default, as in [state.get('query', '')]. *)
Definition get_query (s : AgentState) : string :=
  match query s with Some q => q | None => EmptyString end.
Definition get_norms (s : AgentState) : list evidence :=
  match norms s with Some l => l | None => [] end.
Definition get_cases (s : AgentState) : list CaseRecord :=
  match cases s with Some l => l | None => [] end.
Definition get_answer (s : AgentState) : string :=
  match answer s with Some a => a | None => EmptyString end.
Definition get_trace (s : AgentState) : list string :=
  match trace s with Some t => t | None => [] end.

Definition set_law_type (v : option string) (s : AgentState) : AgentState :=
  {| query := query s; law_type := v; norms := norms s; cases := cases s;
     answer := answer s; trace := trace s; error := error s |}.
Definition set_norms (v : list evidence) (s : AgentState) : AgentState :=
  {| query := query s; law_type := law_type s; norms := Some v; cases := cases s;
     answer := answer s; trace := trace s; error := error s |}.
Definition set_cases (v : option (list CaseRecord)) (s : AgentState) : AgentState :=
  {| query := query s; law_type := law_type s; norms := norms s; cases := v;
     answer := answer s; trace := trace s; error := error s |}.
Definition set_answer (v : string) (s : AgentState) : AgentState :=
  {| query := query s; law_type := law_type s; norms := norms s; cases := cases s;
     answer := Some v; trace := trace s; error := error s |}.
Definition set_error (v : string) (s : AgentState) : AgentState :=
  {| query := query s; law_type := law_type s; norms := norms s; cases := cases s;
     answer := answer s; trace := trace s; error := Some v |}.

(** [state.setdefault("trace", []).append(name)] *)
Definition append_trace (name : string) (s : AgentState) : AgentState :=
  {| query := query s; law_type := law_type s; norms := norms s; cases := cases s;
     answer := answer s; trace := Some (get_trace s ++ [name]); error := error s |}.

(** What a node call leaves: the returned state, or the exception that
    left the node together with the state dictionary as it then is. *)
Inductive node_result : Type :=
| Done (s : AgentState)
| Failed (exc : string) (s : AgentState).

(** A node as the excerpts [classify_query] and [new_node] write it: the
    node's logic runs first, its result is stored in the node's field,
    then the node's name is appended to the trace and the state is
    returned.  An exception in the logic leaves the node before the
    store and the append. *)
Definition node {V} (name : string) (logic : AgentState -> outcome V)
    (store : V -> AgentState -> AgentState) (s : AgentState) : node_result :=
  match logic s with
  | Raises e => Failed e s
  | Returns v => Done (append_trace name (store v s))
  end.

(** Modelled from the spec: the logic of the four nodes whose bodies
    are not among the sources ([src/graph/nodes.py] is absent), with the
    inputs and the output the component table gives for each; a node
    reads a missing upstream field as empty.  [case_sources] is what the
    three external case searches do for a query; the body of the
    [search_cases] node is the printed one. *)
Record Logic : Type := {
  classify : string -> outcome (option string);
  retrieve_norms : string -> option string -> outcome (list evidence);
  case_sources : string -> CaseSearch.sources;
  generate : string -> list evidence -> list CaseRecord -> outcome string;
  verify : string -> list evidence -> list CaseRecord -> outcome string
}.

Definition classify_query (lg : Logic) : AgentState -> node_result :=
  node "classify_query" (fun s => classify lg (get_query s)) set_law_type.
Definition search_norms (lg : Logic) : AgentState -> node_result :=
  node "search_norms" (fun s => retrieve_norms lg (get_query s) (law_type s)) set_norms.
(** The [search_cases] node as the data-source guide prints it: it runs
    the fallback chain of module [CaseSearch] and returns the update
    [{"cases": ...}], which is merged into the state.  The printed body
    hands the searches a name [query] it does not bind; here they are
    asked for the state's query, and whatever a search raises is an
    [Exception] that the [try] blocks swallow.  So the node never
    fails; it writes neither [error] nor [trace]. *)
Definition search_cases (lg : Logic) (s : AgentState) : node_result :=
  Done (set_cases
          (CaseSearch.cases
             (fst (CaseSearch.search_cases (case_sources lg (get_query s))))) s).
Definition generate_answer (lg : Logic) : AgentState -> node_result :=
  node "generate_answer"
       (fun s => generate lg (get_query s) (get_norms s) (get_cases s)) set_answer.
Definition verify_citation (lg : Logic) : AgentState -> node_result :=
  node "verify_citation"
       (fun s => verify lg (get_answer s) (get_norms s) (get_cases s)) set_answer.

Record Stage : Type := {
  stage_name : string;
  stage_fn : AgentState -> node_result
}.

(** The edges of the graph: START, the five nodes in this order, END. *)
Definition workflow (lg : Logic) : list Stage :=
  [ {| stage_name := "classify_query"; stage_fn := classify_query lg |};
    {| stage_name := "search_norms"; stage_fn := search_norms lg |};
    {| stage_name := "search_cases"; stage_fn := search_cases lg |};
    {| stage_name := "generate_answer"; stage_fn := generate_answer lg |};
    {| stage_name := "verify_citation"; stage_fn := verify_citation lg |} ].

Definition stage_names : list string :=
  ["classify_query"; "search_norms"; "search_cases"; "generate_answer";
   "verify_citation"].

(** What a run leaves: the final state, the stages entered, in order,
    and the failures met, in order. *)
Record run_result : Type := {
  final : AgentState;
  executed : list string;
  failures : list (string * string)
}.

(** Modelled from the spec: the engine ([src/graph/workflow.py] is not
    among the sources).  It calls the declared stages in order; on an
    uncaught stage failure it records the error in [state.error] and
    goes on to the next stage; the run ends after the last stage. *)
Fixpoint run (stages : list Stage) (s : AgentState) : run_result :=
  match stages with
  | [] => {| final := s; executed := []; failures := [] |}
  | st :: rest =>
      match stage_fn st s with
      | Done s' =>
          let r := run rest s' in
          {| final := final r; executed := stage_name st :: executed r;
             failures := failures r |}
      | Failed e s' =>
          let r := run rest (set_error e s') in
          {| final := final r; executed := stage_name st :: executed r;
             failures := (stage_name st, e) :: failures r |}
      end
  end.

Definition invoke (lg : Logic) (s : AgentState) : run_result := run (workflow lg) s.







(** The norm retrieval and every case source raise; the rest answers. *)
Definition retrieval_down : Logic :=
  {| classify := fun _ => Returns (Some "civil");
     retrieve_norms := fun _ _ => Raises "database unreachable";
     case_sources := fun _ _ => Raises "all sources failed";
     generate := fun q n c =>
       match n, c with
       | [], [] => Returns "no evidence found"
       | _, _ => Returns q
       end;
     verify := fun a _ _ => Returns a |}.

End Workflow.

(** ** The hybrid retriever *)
Module Retriever.

Record Chunk : Type := {
  chunk_id : nat;
  text : string;
  embeddingVector : list Q;
  sourceCode : string;
  articleNumber : option string;
  offset : nat
}.

(** Modelled from the spec: [src/rag/retriever.py] is not among the
    sources.  The options the retriever is built with: the keyword score
    of a chunk for a query, the embedding of a query, the candidate
    width K, the two weights, and the normalisation of a score against
    the scores of all candidates.  Scores are rational numbers. *)
Record Config : Type := {
  lexical_score : string -> Chunk -> Q;
  embed : string -> list Q;
  candidate_width : nat;
  lexical_weight : Q;
  vector_weight : Q;
  normalize : list Q -> Q -> Q
}.

Fixpoint inner_product (u v : list Q) : Q :=
  match u, v with
  | x :: u', y :: v' => (x * y + inner_product u' v')%Q
  | _, _ => 0%Q
  end.

Definition vector_score (cfg : Config) (query : string) (c : Chunk) : Q :=
  inner_product (embed cfg query) (embeddingVector c).

(** [a] is ranked before [b]: a higher score, or the same score and an
    offset that is not later. *)
Definition ranks_before (score : Chunk -> Q) (a b : Chunk) : bool :=
  negb (Qle_bool (score a) (score b))
  || (Qeq_bool (score a) (score b) && (offset a <=? offset b)).

Fixpoint insert_by {A} (before : A -> A -> bool) (x : A) (l : list A) : list A :=
  match l with
  | [] => [x]
  | y :: rest => if before x y then x :: l else y :: insert_by before x rest
  end.

Fixpoint sort_by {A} (before : A -> A -> bool) (l : list A) : list A :=
  match l with
  | [] => []
  | x :: rest => insert_by before x (sort_by before rest)
  end.

(** A ranking: the best [width] chunks by a score. *)
Definition ranking (score : Chunk -> Q) (width : nat) (corpus : list Chunk) : list Chunk :=
  firstn width (sort_by (ranks_before score) corpus).

Definition has_id (l : list Chunk) (c : Chunk) : bool :=
  existsb (fun d => chunk_id d =? chunk_id c) l.

(** Merging by identity: a chunk of the second ranking is added unless
    its id is already among the first. *)
Definition merge_by_id (l1 l2 : list Chunk) : list Chunk :=
  l1 ++ List.filter (fun c => negb (has_id l1 c)) l2.

Definition candidates (cfg : Config) (corpus : list Chunk) (query : string) : list Chunk :=
  merge_by_id
    (ranking (lexical_score cfg query) (candidate_width cfg) corpus)
    (ranking (vector_score cfg query) (candidate_width cfg) corpus).

(** The weighted combination of the normalised scores. *)
Definition final_score (cfg : Config) (query : string) (cands : list Chunk)
    (c : Chunk) : Q :=
  (lexical_weight cfg *
     normalize cfg (map (lexical_score cfg query) cands) (lexical_score cfg query c)
   + vector_weight cfg *
     normalize cfg (map (vector_score cfg query) cands) (vector_score cfg query c))%Q.

(** Modelled from the spec: [retrieve(query, topN)]. *)
Definition retrieve (cfg : Config) (corpus : list Chunk) (query : string) (topN : nat)
    : list (Chunk * Q) :=
  let cands := candidates cfg corpus query in
  let score := final_score cfg query cands in
  map (fun c => (c, score c)) (firstn topN (sort_by (ranks_before score) cands)).

(** The order of the output: scores do not increase, and of two entries
    with the same score the earlier has the offset that is not later. *)
Definition in_rank_order (x y : Chunk * Q) : Prop :=
  (snd y <= snd x)%Q /\ ((snd x == snd y)%Q -> offset (fst x) <= offset (fst y)).

(** A sample corpus of three chunks, scored by fixed tables. *)
Definition chunk (i off : nat) (v : list Q) : Chunk :=
  {| chunk_id := i; text := EmptyString; embeddingVector := v;
     sourceCode := "GK"; articleNumber := None; offset := off |}.

Definition sample_corpus : list Chunk :=
  [chunk 1 200 [1%Q; 0%Q]; chunk 2 0 [0%Q; 1%Q]; chunk 3 100 [1%Q; 0%Q]].

Definition sample_config : Config :=
  {| lexical_score := fun _ c => if chunk_id c =? 2 then 1%Q else 0%Q;
     embed := fun _ => [1%Q; 0%Q];
     candidate_width := 6;
     lexical_weight := (1 # 2)%Q;
     vector_weight := (1 # 2)%Q;
     normalize := fun _ x => x |}.

End Retriever.

(** ** hooks/useSearchResults.ts, between the awaits *)
Module SearchPhases.
Import JS SearchResults.

(** [search] up to its first [await]: [setLoading(true); setError(null)]. *)
Definition search_begin (st : HookState) : HookState :=
  setError None (setLoading true st).

(** [search] from the settled request to the end of [finally].  No cell is
    written between the two awaits, so these are the only two moments at
    which a call of [search] changes the state. *)
Definition search_settle (o : fetch_outcome) (st : HookState) : HookState :=
  let st2 :=
    match try_block o with
    | inl rs => setResults rs st
    | inr e => setResults [] (setError (Some (error_text e)) st)
    end in
  setLoading false st2.

(** [clearResults]: [setResults([]); setError(null)]. *)
Definition clearResults (st : HookState) : HookState :=
  setError None (setResults [] st).

Definition initialHook : HookState :=
  {| results := []; loading := false; error := None |}.

(** The value of a decimal digit string, most significant digit first;
    [None] when a code unit is not a digit. *)
Fixpoint units_uint (s : jsstring) : option Decimal.uint :=
  match s with
  | [] => Some Decimal.Nil
  | c :: rest =>
      match units_uint rest with
      | None => None
      | Some d =>
          if (c =? 48)%N then Some (Decimal.D0 d)
          else if (c =? 49)%N then Some (Decimal.D1 d)
          else if (c =? 50)%N then Some (Decimal.D2 d)
          else if (c =? 51)%N then Some (Decimal.D3 d)
          else if (c =? 52)%N then Some (Decimal.D4 d)
          else if (c =? 53)%N then Some (Decimal.D5 d)
          else if (c =? 54)%N then Some (Decimal.D6 d)
          else if (c =? 55)%N then Some (Decimal.D7 d)
          else if (c =? 56)%N then Some (Decimal.D8 d)
          else if (c =? 57)%N then Some (Decimal.D9 d)
          else None
      end
  end.

(** Reading the status back from an error text: the digits after the
    prefix. *)
Definition status_of_message (m : jsstring) : option N :=
  match units_uint (skipn (length server_error_prefix) m) with
  | Some d => Some (N.of_uint d)
  | None => None
  end.

End SearchPhases.

(** ** components/ResultsList.tsx, ResultDetail.tsx, Sidebar.tsx *)
Module Views.
Import JS SearchResults.

(** An optional string property in a JSX condition: [undefined] and ['']
    are falsy. *)
Definition shown (o : option jsstring) : bool :=
  match o with
  | Some s => truthy s
  | None => false
  end.

Definition text_of (o : option jsstring) : jsstring :=
  match o with
  | Some s => s
  | None => []
  end.

Inductive icon : Type := DescriptionIcon | GavelIcon.
Inductive color : Type := primary | secondary.
Inductive field : Type := Description | Source | Date | Number.

(** "Норма", "Дело", "Нормативный акт", "Судебное дело", "№ " *)
Definition label_norm : jsstring := [1053; 1086; 1088; 1084; 1072]%N.
Definition label_case : jsstring := [1044; 1077; 1083; 1086]%N.
Definition label_norm_long : jsstring :=
  [1053; 1086; 1088; 1084; 1072; 1090; 1080; 1074; 1085; 1099; 1081; 32;
   1072; 1082; 1090]%N.
Definition label_case_long : jsstring :=
  [1057; 1091; 1076; 1077; 1073; 1085; 1086; 1077; 32; 1076; 1077; 1083; 1086]%N.
Definition number_sign : jsstring := [8470; 32]%N.

Definition icon_of (t : result_type) : icon :=
  match t with norm => DescriptionIcon | case => GavelIcon end.
Definition color_of (t : result_type) : color :=
  match t with norm => primary | case => secondary end.

(** The children a JSX condition [x && <el/>] contributes. *)
Definition when {A} (b : bool) (x : A) : list A := if b then [x] else [].

(** One card of the list.  [card_meta] is the box of captions:
    [None] when the box is not rendered. *)
Record Card : Type := {
  card_key : jsstring;
  highlighted : bool;
  card_icon : icon;
  card_title : jsstring;
  chip_label : jsstring;
  chip_color : color;
  card_description : option jsstring;
  card_meta : option (list (field * jsstring))
}.

(** [selectedId === result.id]; an undefined [selectedId] equals no id. *)
Definition is_selected (selectedId : option jsstring) (r : SearchResult) : bool :=
  match selectedId with
  | Some i => streq i (id r)
  | None => false
  end.

Definition render_card (selectedId : option jsstring) (r : SearchResult) : Card :=
  {| card_key := id r;
     highlighted := is_selected selectedId r;
     card_icon := icon_of (type r);
     card_title := title r;
     chip_label := match type r with norm => label_norm | case => label_case end;
     chip_color := color_of (type r);
     card_description :=
       if shown (description r) then description r else None;
     card_meta :=
       if shown (source r) || shown (date r) || shown (number r)
       then Some (when (shown (source r)) (Source, text_of (source r))
                  ++ when (shown (date r)) (Date, text_of (date r))
                  ++ when (shown (number r))
                          (Number, number_sign ++ text_of (number r)))
       else None |}.

(** [ResultsList]: the hint for an empty list, or one card per result. *)
Inductive list_view : Type :=
| EmptyHint
| Cards (cards : list Card).

Definition ResultsList (results : list SearchResult) (selectedId : option jsstring)
    : list_view :=
  match results with
  | [] => EmptyHint
  | _ :: _ => Cards (map (render_card selectedId) results)
  end.

(** A click on card number [index] calls [onSelect] with that result. *)
Definition card_click (results : list SearchResult) (index : nat) : option SearchResult :=
  nth_error results index.

(** [ResultDetail]: [None] is the hint shown for a null result. *)
Record Detail : Type := {
  detail_icon : icon;
  detail_chip : jsstring;
  detail_color : color;
  detail_title : jsstring;
  detail_rows : list (field * jsstring)
}.

Definition ResultDetail (result : option SearchResult) : option Detail :=
  match result with
  | None => None
  | Some r =>
      Some {| detail_icon := icon_of (type r);
              detail_chip := match type r with
                             | norm => label_norm_long
                             | case => label_case_long
                             end;
              detail_color := color_of (type r);
              detail_title := title r;
              detail_rows :=
                when (shown (number r)) (Number, text_of (number r))
                ++ when (shown (date r)) (Date, text_of (date r))
                ++ when (shown (source r)) (Source, text_of (source r))
                ++ when (shown (description r))
                        (Description, text_of (description r)) |}
  end.

(** The optional fields a card shows, in the card's order. *)
Definition card_fields (c : Card) : list field :=
  when (match card_description c with Some _ => true | None => false end) Description
  ++ match card_meta c with
     | Some captions => map fst captions
     | None => []
     end.

(** [Sidebar]: [None] is the "history is empty" line, otherwise one
    button per entry; a click on button [index] calls [onSelectHistory]
    with that entry. *)
Definition Sidebar (history : list jsstring) : option (list jsstring) :=
  match history with
  | [] => None
  | _ :: _ => Some history
  end.

Definition history_click (history : list jsstring) (index : nat) : option jsstring :=
  nth_error history index.

(** The number of cards drawn with the selection border. *)
Definition highlighted_count (v : list_view) : nat :=
  match v with
  | EmptyHint => 0
  | Cards cs => length (List.filter highlighted cs)
  end.

End Views.

(** ** pages/Home.tsx *)
Module Home.
Import JS SearchResults SearchHistory SearchPhases Views.

(** The page's state: the cells of the two hooks and [selectedResult].
    [pending] counts the calls of [search] that have begun and not yet
    settled; the page does not store it. *)
Record HomeState : Type := {
  hook : HookState;
  hist : HistoryState;
  selectedResult : option SearchResult;
  pending : nat
}.

Definition initialHome : HomeState :=
  {| hook := initialHook; hist := initialHistory; selectedResult := None;
     pending := 0 |}.

(** [{loading && <CircularProgress/>}], [{error && <Alert/>}] and
    [{!loading && !error && <ResultsList/>}]. *)
Definition spinner_visible (st : HomeState) : bool := loading (hook st).
Definition alert_visible (st : HomeState) : bool := shown (error (hook st)).
Definition list_visible (st : HomeState) : bool :=
  negb (loading (hook st)) && negb (shown (error (hook st))).

(** [handleSearch] up to its [await]: [addToHistory(query)], then the
    synchronous part of [search(query)]. *)
Definition handleSearch_begin (query : jsstring) (st : HomeState) : HomeState :=
  {| hook := search_begin (hook st);
     hist := addToHistory query (hist st);
     selectedResult := selectedResult st;
     pending := S (pending st) |}.

(** [handleSearch] after its [await]: the request settles and
    [setSelectedResult(null)] follows in the same turn. *)
Definition handleSearch_settle (o : fetch_outcome) (st : HomeState) : HomeState :=
  match pending st with
  | 0 => st
  | S n =>
      {| hook := search_settle o (hook st);
         hist := hist st;
         selectedResult := None;
         pending := n |}
  end.

(** What the user and the network can do to the page. *)
Inductive event : Type :=
| Click (typed : jsstring)
| KeyPress (key typed : jsstring)
| SelectHistory (index : nat)
| Settle (o : fetch_outcome)
| SelectResult (index : nat).

Definition begin_all (queries : list jsstring) (st : HomeState) : HomeState :=
  fold_left (fun s q => handleSearch_begin q s) queries st.

(** The text field is disabled while loading, so it receives no key
    then; the sidebar buttons are never disabled; a card can be clicked
    only when the list is rendered. *)
Definition step (st : HomeState) (e : event) : HomeState :=
  match e with
  | Click typed =>
      begin_all (QueryInput.click (loading (hook st)) typed) st
  | KeyPress key typed =>
      if loading (hook st) then st
      else begin_all (QueryInput.handleKeyPress key typed) st
  | SelectHistory index =>
      match history_click (history (hist st)) index with
      | Some item => handleSearch_begin item st
      | None => st
      end
  | Settle o => handleSearch_settle o st
  | SelectResult index =>
      if list_visible st then
        match card_click (results (hook st)) index with
        | Some r =>
            {| hook := hook st; hist := hist st; selectedResult := Some r;
               pending := pending st |}
        | None => st
        end
      else st
  end.

Definition run (events : list event) (st : HomeState) : HomeState :=
  fold_left step events st.

(** The number of the three panels that are rendered. *)
Definition panels (st : HomeState) : nat :=
  (if spinner_visible st then 1 else 0) + (if alert_visible st then 1 else 0)
  + (if list_visible st then 1 else 0).

(** The [selectedId] prop handed to the list: [selectedResult?.id]. *)
Definition selectedId (st : HomeState) : option jsstring :=
  match selectedResult st with
  | Some r => Some (id r)
  | None => None
  end.

(** The invariant of the page's states. *)
Definition home_inv (st : HomeState) : Prop :=
  (loading (hook st) = true -> error (hook st) = None) /\
  (loading (hook st) = true -> 0 < pending st) /\
  (forall r, selectedResult st = Some r -> In r (results (hook st))) /\
  Forall (fun q => trim q <> []) (history (hist st)) /\
  List.NoDup (history (hist st)) /\
  length (history (hist st)) <= 10.

(** Two searches started from the sidebar overlap: [q] is searched once
    to enter the history, then selected twice before either request
    settles. *)
Definition overlapping (q : jsstring) (o0 : fetch_outcome) : list event :=
  [Click q; Settle o0; SelectHistory 0; SelectHistory 0].

(** Sample outcomes: a 500 response and an empty 200 response. *)
Definition server_down : fetch_outcome :=
  FetchResponse false 500 (JsonRejects ThrownOther).
Definition no_results : fetch_outcome :=
  FetchResponse true 200 (JsonObject (Some [])).

(** A response with one norm and one case. *)
Definition sample_result (i : jsstring) (t : result_type) : SearchResult :=
  {| id := i; title := lit "Article 330"; type := t; description := None;
     source := Some (lit "GK"); date := None; number := Some (lit "330") |}.
Definition two_results : fetch_outcome :=
  FetchResponse true 200
    (JsonObject (Some [sample_result (lit "n1") norm; sample_result (lit "c1") case])).

End Home.

(** ** hooks/useSearchHistory.ts, sequences of calls *)
Module HistoryRuns.
Import JS SearchHistory.

Inductive call : Type :=
| Add (query : jsstring)
| Clear.

Definition apply_call (st : HistoryState) (c : call) : HistoryState :=
  match c with
  | Add q => addToHistory q st
  | Clear => clearHistory st
  end.

Definition apply_calls (cs : list call) (st : HistoryState) : HistoryState :=
  fold_left apply_call cs st.

(** What a later mount finds in the store: the item, when there is one,
    parses to the list that was written. *)
Definition stored (st : HistoryState) : option (option (list jsstring)) :=
  match saved st with
  | Some l => Some (Some l)
  | None => None
  end.

(** The invariant of the hook's states. *)
Definition history_inv (st : HistoryState) : Prop :=
  List.NoDup (history st) /\ length (history st) <= MAX_HISTORY /\
  (saved st = Some (history st) \/ (history st = [] /\ saved st = None)).

(** Ten queries, "0" to "9". *)
Definition ten_queries : list jsstring :=
  map (fun c => [c]) [48; 49; 50; 51; 52; 53; 54; 55; 56; 57]%N.

End HistoryRuns.

(** ** The cache as both of its callers use it (data-source guide, 5 and 9.1) *)
Module SharedCache.
Import Py.

(** [cache_search_result] and [get_cached_result] take any list and store
    its JSON text; [J] is the type of the objects in such a list.  An
    entry holds the list the stored text denotes. *)
Record entry (J : Type) : Type := { value : list J; expires_at : Z }.
Arguments value {J} _.
Arguments expires_at {J} _.

Definition cache_search_result {J} (query : string) (result : list J) (ttl : Z)
    (now : Z) (db : gmap string (entry J)) : gmap string (entry J) :=
  <[Cache.search_key query := {| value := result; expires_at := (now + ttl)%Z |}]> db.

Definition get_cached_result {J} (query : string) (now : Z)
    (db : gmap string (entry J)) : option (list J) :=
  match db !! Cache.search_key query with
  | Some e => if (now <? expires_at e)%Z then Some (value e) else None
  | None => None
  end.

Record call_result (J : Type) : Type := {
  returned : outcome (list J);
  db_after : gmap string (entry J);
  outbound_calls : nat
}.
Arguments returned {J} _.
Arguments db_after {J} _.
Arguments outbound_calls {J} _.

(** [KadParser.search_cases] (5.2); [_search] is what the site does for
    the query at this instant. *)
Definition search_cases {J} (_search : string -> Z -> outcome (list J))
    (query : string) (now : Z) (db : gmap string (entry J)) : call_result J :=
  let cached := get_cached_result query now db in
  if truthy_list cached then
    {| returned := Returns (match cached with Some l => l | None => [] end);
       db_after := db; outbound_calls := 0 |}
  else
    match _search query now with
    | Raises e => {| returned := Raises e; db_after := db; outbound_calls := 1 |}
    | Returns results =>
        {| returned := Returns results;
           db_after := cache_search_result query results Cache.default_ttl now db;
           outbound_calls := 1 |}
    end.

(** [search_norm_cached] (9.1); [retrieve] is what
    [get_retriever().retrieve] does for the query at this instant. *)
Definition search_norm_cached {J} (retrieve : string -> Z -> outcome (list J))
    (query : string) (now : Z) (db : gmap string (entry J)) : call_result J :=
  let cached := get_cached_result query now db in
  if truthy_list cached then
    {| returned := Returns (match cached with Some l => l | None => [] end);
       db_after := db; outbound_calls := 0 |}
  else
    match retrieve query now with
    | Raises e => {| returned := Raises e; db_after := db; outbound_calls := 1 |}
    | Returns results =>
        {| returned := Returns results;
           db_after := cache_search_result query results Cache.default_ttl now db;
           outbound_calls := 1 |}
    end.

(** The store of module [Cache], seen as a store of lists. *)
Definition of_cache (db : gmap string Cache.entry) : gmap string (entry CaseRecord) :=
  (fun e => {| value := Cache.json_loads (Cache.value e);
               expires_at := Cache.expires_at e |}) <$> db.

(** Sample objects: a case and a norm, told apart by a tag. *)
Inductive sample_obj : Type := CaseObj (number : string) | NormObj (article : string).

Definition finds_case : string -> Z -> outcome (list sample_obj) :=
  fun _ _ => Returns [CaseObj "A40-1/2025"].
Definition finds_norm : string -> Z -> outcome (list sample_obj) :=
  fun _ _ => Returns [NormObj "330"].

End SharedCache.

(** ** The sudact.ru search (data-source guide, 3.1) *)
Module Sudact.
Import Py.

(** Python text: a sequence of code points. *)
Definition pystr : Type := list N.

(** [str.isspace] for one character. *)
Definition isspace (c : N) : bool :=
  ((9 <=? c) && (c <=? 13) || (28 <=? c) && (c <=? 32) || (c =? 133)
   || (c =? 160) || (c =? 5760) || (8192 <=? c) && (c <=? 8202)
   || (c =? 8232) || (c =? 8233) || (c =? 8239) || (c =? 8287)
   || (c =? 12288))%N.

Fixpoint lstrip (s : pystr) : pystr :=
  match s with
  | [] => []
  | c :: rest => if isspace c then lstrip rest else s
  end.

Definition rstrip (s : pystr) : pystr := rev (lstrip (rev s)).

(** [str.strip()] *)
Definition strip (s : pystr) : pystr := rstrip (lstrip s).

(** One element matched by [.law-doc]: the text of its [.doc-name]
    descendant and of its [.doc-date] descendant when there is one, and
    its first [a] descendant, with the [href] attribute when it has
    one. *)
Record law_doc : Type := {
  doc_name : option pystr;
  anchor : option (option pystr);
  doc_date : option pystr
}.

Record sudact_result : Type := { title : pystr; url : pystr; date : pystr }.

(** The dictionary built for one item.  [select_one] yields [None] for a
    missing descendant: [None.text] raises AttributeError, [None["href"]]
    raises TypeError, and a tag without the attribute raises KeyError.
    The three values are evaluated in the order title, url, date. *)
Definition parse_item (item : law_doc) : outcome sudact_result :=
  match doc_name item with
  | None => Raises "AttributeError"
  | Some name =>
      match anchor item with
      | None => Raises "TypeError"
      | Some None => Raises "KeyError"
      | Some (Some href) =>
          match doc_date item with
          | None => Raises "AttributeError"
          | Some d =>
              Returns {| title := strip name; url := href; date := strip d |}
          end
      end
  end.

(** The loop [for item in soup.select(".law-doc"): results.append(...)]. *)
Fixpoint parse_items (items : list law_doc) : outcome (list sudact_result) :=
  match items with
  | [] => Returns []
  | item :: rest =>
      match parse_item item with
      | Raises e => Raises e
      | Returns r =>
          match parse_items rest with
          | Raises e => Raises e
          | Returns rs => Returns (r :: rs)
          end
      end
  end.

(** [search_sudact]: [page] is what the request and the selection of
    [.law-doc] yield; the status of the response is not looked at. *)
Definition search_sudact (page : outcome (list law_doc)) : outcome (list sudact_result) :=
  match page with
  | Raises e => Raises e
  | Returns items => parse_items items
  end.

Definition well_formed (item : law_doc) : Prop :=
  (exists name, doc_name item = Some name) /\
  (exists href, anchor item = Some (Some href)) /\
  (exists d, doc_date item = Some d).

(** A text with no white space at either end. *)
Definition stripped (s : pystr) : Prop :=
  match s with
  | [] => True
  | c :: _ => isspace c = false
  end /\
  match rev s with
  | [] => True
  | c :: _ => isspace c = false
  end.

Fixpoint ascii_units (s : string) : pystr :=
  match s with
  | EmptyString => []
  | String a rest => N_of_ascii a :: ascii_units rest
  end.

(** A sample page: one complete entry and one without a date. *)
Definition complete_entry : law_doc :=
  {| doc_name := Some (ascii_units "  Decision 1 ");
     anchor := Some (Some (ascii_units "/doc/1"));
     doc_date := Some (ascii_units "2024-01-01") |}.
Definition undated_entry : law_doc :=
  {| doc_name := Some (ascii_units "Decision 2");
     anchor := Some (Some (ascii_units "/doc/2"));
     doc_date := None |}.

End Sudact.

(** ** [comprehensive_search] (data-source guide, 9.2) *)
Module Comprehensive.
Import Py.

(** The dictionary [results]. *)
Record search_results (Norm : Type) : Type := {
  norms : list Norm;
  cases : list CaseRecord;
  sources_used : list string
}.
Arguments norms {Norm} _.
Arguments cases {Norm} _.
Arguments sources_used {Norm} _.

Record run_result (Norm : Type) : Type := {
  returned : outcome (search_results Norm);
  db_after : gmap string Cache.entry;
  outbound_calls : nat
}.
Arguments returned {Norm} _.
Arguments db_after {Norm} _.
Arguments outbound_calls {Norm} _.

(** [retrieve] is what [retriever.retrieve(query)] does; the cases come
    from [KadParser.search_cases], with its cache.  Neither call is
    guarded, so an exception of either leaves the function. *)
Definition comprehensive_search {Norm} (retrieve : outcome (list Norm))
    (_search : Cache.searcher) (query : string) (now : Z)
    (db : gmap string Cache.entry) : run_result Norm :=
  match retrieve with
  | Raises e => {| returned := Raises e; db_after := db; outbound_calls := 0 |}
  | Returns ns =>
      let r := Cache.search_cases _search query now db in
      match Cache.returned r with
      | Raises e =>
          {| returned := Raises e; db_after := Cache.db_after r;
             outbound_calls := Cache.outbound_calls r |}
      | Returns cs =>
          {| returned :=
               Returns
                 (match cs with
                  | [] => {| norms := ns; cases := [];
                             sources_used := ["local_db"] |}
                  | _ :: _ => {| norms := ns; cases := [] ++ cs;
                                 sources_used := ["local_db"] ++ ["kad.arbitr.ru"] |}
                  end);
             db_after := Cache.db_after r;
             outbound_calls := Cache.outbound_calls r |}
      end
  end.

End Comprehensive.

(** ** Sample three-provider clients *)
Module LLMSamples.
Import Py LLM.

(** OpenRouter answers at once. *)
Definition primary_up : MultiLLMClient3 nat :=
  {| primary_client := OpenRouterClient (always_answers "Article 330");
     fallback_client := PerplexityClient (always_fails "HTTP 401");
     secondary_fallback := NewProviderClient (always_fails "HTTP 503") |}.

End LLMSamples.

(* ===================================================================== *)
(** * Part II: properties                                                 *)
(* ===================================================================== *)

Section QueryInputFacts.
Import JS QueryInput.

Lemma truthy_nonempty (s : jsstring) : truthy s = true <-> s <> [].
Proof. destruct s; simpl; split; intros; congruence. Qed.

Lemma handleSearch_calls (query arg : jsstring) :
  In arg (handleSearch query) -> trim query <> [] /\ arg = query.
Proof.
  unfold handleSearch. destruct (truthy (trim query)) eqn:E; simpl.
  - intros [<- | []]. split; [now apply truthy_nonempty | reflexivity].
  - intros [].
Qed.

Lemma handleKeyPress_calls (key query arg : jsstring) :
  In arg (handleKeyPress key query) ->
  key = lit "Enter" /\ trim query <> [] /\ arg = query.
Proof.
  unfold handleKeyPress, streq.
  destruct (bool_decide (key = lit "Enter")) eqn:K; simpl; [| intros []].
  destruct (truthy (trim query)) eqn:E; simpl; [| intros []].
  intros [<- | []]. apply bool_decide_eq_true in K.
  repeat split; [assumption | now apply truthy_nonempty].
Qed.

(** C10. [QueryInput] calls [onSearch] only when the trimmed input is not
    empty, on the click path and on the key path alike; the button is
    disabled for blank input; every call passes the untrimmed string; and
    for non-blank input a click on the enabled button, or Enter, does
    make the call. *)
Theorem onSearch_only_for_nonblank_input (query : jsstring) :
  (forall arg, In arg (handleSearch query) -> trim query <> [] /\ arg = query) /\
  (forall key arg, In arg (handleKeyPress key query) ->
     trim query <> [] /\ arg = query) /\
  (forall loading arg, In arg (click loading query) ->
     trim query <> [] /\ arg = query) /\
  (forall loading, trim query = [] -> button_disabled loading query = true) /\
  (trim query <> [] ->
     handleSearch query = [query] /\
     handleKeyPress (lit "Enter") query = [query] /\
     click false query = [query]).
Proof.
  split; [| split; [| split; [| split]]].
  - intros arg H. now apply handleSearch_calls in H.
  - intros key arg H. apply handleKeyPress_calls in H. tauto.
  - intros ld arg H. unfold click in H.
    destruct (button_disabled ld query); [destruct H |].
    now apply handleSearch_calls in H.
  - intros ld H. unfold button_disabled. rewrite H. simpl. now destruct ld.
  - intros H. apply truthy_nonempty in H.
    unfold click, button_disabled, handleKeyPress, handleSearch.
    rewrite H. simpl. repeat split.
Qed.

(** A string of blanks around one letter is passed on with its blanks. *)
Lemma onSearch_only_for_nonblank_input_witness :
  handleSearch (lit "  a ") = [lit "  a "] /\
  handleKeyPress (lit "Enter") (lit "  a ") = [lit "  a "] /\
  click false (lit "  a ") = [lit "  a "].
Proof.
  apply (onSearch_only_for_nonblank_input (lit "  a ")).
  vm_compute. discriminate.
Defined.

End QueryInputFacts.

Section SearchResultsFacts.
Import JS SearchResults SearchPhases.

(** A call of [search] that no other call overlaps: [loading] is false
    afterwards and either the request succeeded, [error] is null and
    [results] is the response's list (the empty list when the field is
    falsy), or the request failed, [error] holds the text of the thrown
    value and [results] is empty. *)
Lemma search_alone_completed (o : fetch_outcome) (st : HookState) :
  loading (search o st) = false /\
  match succeeded o with
  | Some d =>
      error (search o st) = None /\
      results (search o st) = match d with Some rs => rs | None => [] end
  | None =>
      (exists message, error (search o st) = Some message) /\
      results (search o st) = []
  end.
Proof.
  split; [reflexivity |].
  destruct o as [e | ok status body].
  - simpl. split; [eexists; reflexivity | reflexivity].
  - destruct ok; simpl.
    + destruct body as [e | m | [rs |]]; simpl;
        (split; [try reflexivity; eexists; reflexivity | reflexivity]).
    + destruct body as [e | m | d]; simpl;
        (split; [eexists; reflexivity | reflexivity]).
Qed.

(** C8, as stated, fails when two calls overlap.  [error] is cleared only
    before the first [await]: a first call begins, a second call begins
    and fails, then the first call completes successfully.  [loading] is
    false and [results] is the response's list, but [error] still holds
    the second call's message.  A rejection with an [Error] whose message
    is empty is a failure that leaves [error] the empty string. *)
Lemma overlapped_success_keeps_error :
  let first := FetchResponse true 200
                 (JsonObject (Some [Home.sample_result (lit "n1") norm])) in
  let second := FetchResponse false 500 (JsonRejects ThrownOther) in
  let st := search_settle first
              (search_settle second (search_begin (search_begin initialHook))) in
  succeeded first = Some (Some [Home.sample_result (lit "n1") norm]) /\
  succeeded second = None /\
  loading st = false /\
  results st = [Home.sample_result (lit "n1") norm] /\
  error st = Some (server_error_prefix ++ lit "500") /\
  error st <> None /\
  error (search (FetchRejects (ThrownError [])) initialHook) = Some [].
Proof. vm_compute. repeat split. discriminate. Qed.

(** C8, amended.  A call of [search] writes the state twice: before the
    request ([search_begin]: [loading] true, [error] null) and when the
    request has settled ([search_settle]), on whatever state other calls
    have left in between.  After the call has settled [loading] is false;
    when the request failed, [results] is empty and [error] is the text
    of the thrown value (an [Error]'s own message, possibly empty, or
    the generic text); when it succeeded, [results] is the response's
    list (empty when the field is falsy) and [error] is left as it was.
    A call that no other call overlaps is the two writes in a row, and
    then success leaves [error] null. *)
Theorem search_call_completed (o : fetch_outcome) (st : HookState) :
  loading (search_begin st) = true /\
  error (search_begin st) = None /\
  results (search_begin st) = results st /\
  loading (search_settle o st) = false /\
  match succeeded o with
  | Some d =>
      results (search_settle o st) = match d with Some rs => rs | None => [] end /\
      error (search_settle o st) = error st
  | None =>
      results (search_settle o st) = [] /\
      exists e, try_block o = inr e /\
                error (search_settle o st) = Some (error_text e)
  end /\
  search o st = search_settle o (search_begin st) /\
  match succeeded o with
  | Some d =>
      error (search o st) = None /\
      results (search o st) = match d with Some rs => rs | None => [] end
  | None =>
      (exists message, error (search o st) = Some message) /\
      results (search o st) = []
  end.
Proof.
  repeat (split; [reflexivity |]).
  split; [| split; [reflexivity | apply search_alone_completed]].
  destruct o as [e | ok status body].
  - simpl. split; [reflexivity | eexists; split; reflexivity].
  - destruct ok; simpl.
    + destruct body as [e | m | [rs |]]; simpl;
        (split; [reflexivity | try reflexivity; eexists; split; reflexivity]).
    + destruct body as [e | m | d]; simpl;
        (split; [reflexivity | eexists; split; reflexivity]).
Qed.

End SearchResultsFacts.

Section SearchHistoryFacts.
Import JS SearchHistory.

Lemma filter_all_true {A} (p : A -> bool) (l : list A) :
  (forall x, In x l -> p x = true) -> List.filter p l = l.
Proof.
  induction l as [| a l IH]; simpl; intros H; [reflexivity |].
  rewrite (H a (or_introl eq_refl)). f_equal. apply IH. intros x Hx.
  apply H. now right.
Qed.

Lemma In_firstn {A} (n : nat) (l : list A) (x : A) :
  In x (firstn n l) -> In x l.
Proof.
  revert l. induction n as [| n IH]; intros [| a l]; simpl; try tauto.
  intros [-> | H]; [now left | right; now apply IH].
Qed.

Lemma NoDup_firstn' {A} (n : nat) (l : list A) :
  List.NoDup l -> List.NoDup (firstn n l).
Proof.
  revert l. induction n as [| n IH]; intros l H; simpl; [constructor |].
  destruct l as [| a l]; [constructor |].
  inversion H as [| ? ? Hnotin Hnd]; subst. constructor.
  - intros Hin. apply Hnotin. now apply In_firstn in Hin.
  - now apply IH.
Qed.

Lemma streq_refl (q : jsstring) : streq q q = true.
Proof. unfold streq. now apply bool_decide_eq_true. Qed.

Lemma streq_true (a b : jsstring) : streq a b = true <-> a = b.
Proof. unfold streq. apply bool_decide_eq_true. Qed.

Lemma not_In_filtered (query : jsstring) (prev : list jsstring) :
  ~ In query (List.filter (fun item => negb (streq item query)) prev).
Proof.
  intros H. apply List.filter_In in H as [_ H].
  now rewrite streq_refl in H.
Qed.

Lemma updated_unfold (query : jsstring) (prev : list jsstring) :
  updated query prev =
  query :: firstn 9 (List.filter (fun item => negb (streq item query)) prev).
Proof. reflexivity. Qed.

Lemma filter_length_lt {A} (p : A -> bool) (l : list A) (x : A) :
  In x l -> p x = false -> length (List.filter p l) < length l.
Proof.
  induction l as [| a l IH]; simpl; [tauto |].
  intros [-> | Hin] Hp.
  - rewrite Hp. pose proof (List.filter_length_le p l). lia.
  - specialize (IH Hin Hp). destruct (p a); simpl; lia.
Qed.

(** The front of the list, the bound and idempotence hold for every
    list; freedom from duplicates is inherited from the current list. *)
Lemma updated_head (query : jsstring) (prev : list jsstring) :
  hd_error (updated query prev) = Some query.
Proof. reflexivity. Qed.

Lemma updated_length (query : jsstring) (prev : list jsstring) :
  length (updated query prev) <= MAX_HISTORY.
Proof. unfold updated. apply List.firstn_le_length. Qed.

Lemma updated_NoDup (query : jsstring) (prev : list jsstring) :
  List.NoDup prev -> List.NoDup (updated query prev).
Proof.
  intros H. unfold updated. apply NoDup_firstn'. constructor.
  - apply not_In_filtered.
  - now apply List.NoDup_filter.
Qed.

Lemma updated_query_once (query : jsstring) (prev : list jsstring) :
  count_occ (list_eq_dec (A:=N)) (updated query prev) query = 1.
Proof.
  rewrite updated_unfold. rewrite count_occ_cons_eq by reflexivity.
  f_equal. apply count_occ_not_In. intros H. apply In_firstn in H.
  now apply not_In_filtered in H.
Qed.

Lemma updated_present_no_growth (query : jsstring) (prev : list jsstring) :
  In query prev -> length (updated query prev) <= length prev.
Proof.
  intros H. rewrite updated_unfold. simpl.
  pose proof (filter_length_lt (fun item => negb (streq item query)) prev query H)
    as Hlt.
  cbv beta in Hlt. rewrite streq_refl in Hlt. specialize (Hlt eq_refl).
  pose proof (List.firstn_le_length 9
    (List.filter (fun item => negb (streq item query)) prev)) as Hle.
  rewrite List.length_firstn in *. lia.
Qed.

Lemma updated_idempotent (query : jsstring) (prev : list jsstring) :
  updated query (updated query prev) = updated query prev.
Proof.
  rewrite !updated_unfold. f_equal. simpl. rewrite streq_refl. simpl.
  set (F := List.filter (fun item => negb (streq item query)) prev).
  rewrite filter_all_true.
  - rewrite List.firstn_firstn. reflexivity.
  - intros x Hx. apply In_firstn in Hx. unfold F in Hx.
    now apply List.filter_In in Hx as [_ Hx].
Qed.

(** C9, as stated, fails: a current list that already repeats an entry
    (here loaded from the store) keeps the repetition when a different
    query is added. *)
Lemma addToHistory_keeps_old_duplicates :
  let st := loadSaved (Some (Some [lit "a"; lit "a"])) initialHistory in
  history (addToHistory (lit "b") st) = [lit "b"; lit "a"; lit "a"] /\
  ~ List.NoDup (history (addToHistory (lit "b") st)).
Proof.
  split; [reflexivity |].
  intros H. simpl in H. inversion H as [| ? ? _ H1]; subst.
  inversion H1 as [| ? ? Hn _]; subst. apply Hn. now left.
Qed.

(** C9, amended.  For every current list and query, [addToHistory] puts
    the query first, keeps at most [MAX_HISTORY] = 10 entries, holds the
    query exactly once, does not grow the list when the query was already
    present, is idempotent, writes the same list to the store, and yields
    a list free of duplicates whenever the current list is. *)
Theorem addToHistory_properties (query : jsstring) (st : HistoryState) :
  let st' := addToHistory query st in
  hd_error (history st') = Some query /\
  length (history st') <= 10 /\
  count_occ (list_eq_dec (A:=N)) (history st') query = 1 /\
  (In query (history st) -> length (history st') <= length (history st)) /\
  addToHistory query st' = st' /\
  saved st' = Some (history st') /\
  (List.NoDup (history st) -> List.NoDup (history st')).
Proof.
  simpl. repeat split.
  - apply updated_length.
  - apply updated_query_once.
  - apply updated_present_no_growth.
  - unfold addToHistory. simpl. now rewrite updated_idempotent.
  - apply updated_NoDup.
Qed.

(** Adding "b" to the duplicate-free list a, b, c moves it to the front. *)
Lemma addToHistory_properties_witness :
  let st := {| history := [lit "a"; lit "b"; lit "c"]; saved := None |} in
  history (addToHistory (lit "b") st) = [lit "b"; lit "a"; lit "c"] /\
  List.NoDup (history (addToHistory (lit "b") st)).
Proof.
  split; [reflexivity |].
  apply (addToHistory_properties (lit "b")
           {| history := [lit "a"; lit "b"; lit "c"]; saved := None |}).
  simpl. repeat constructor; simpl; intros H;
    repeat (destruct H as [H | H]; [discriminate |]); exact H.
Defined.

End SearchHistoryFacts.

Section CaseSearchFacts.
Import Py CaseSearch.

(** What [search_cases] does, for every behaviour of the three sources:
    it always returns (no exception escapes), it calls the sources in
    priority order and stops at the first of the first two that returns
    matches, and in every other case it returns the empty list. *)
Lemma search_cases_behaviour (w : sources) :
  (exists v, truthy_list v = true /\ w kad_arbitr = Returns v /\
     search_cases w = ({| cases := v |}, [kad_arbitr])) \/
  (try_and_return w kad_arbitr = None /\
   exists v, truthy_list v = true /\ w sudact = Returns v /\
     search_cases w = ({| cases := v |}, [kad_arbitr; sudact])) \/
  (try_and_return w kad_arbitr = None /\ try_and_return w sudact = None /\
   search_cases w = ({| cases := Some [] |}, SOURCES_PRIORITY)).
Proof.
  unfold search_cases, try_and_return.
  destruct (w kad_arbitr) as [v1 | e1].
  - destruct (truthy_list v1) eqn:T1.
    + left. exists v1. auto.
    + right. destruct (w sudact) as [v2 | e2].
      * destruct (truthy_list v2) eqn:T2.
        -- left. split; [reflexivity |]. exists v2. auto.
        -- right. auto.
      * right. auto.
  - right. destruct (w sudact) as [v2 | e2].
    + destruct (truthy_list v2) eqn:T2.
      * left. split; [reflexivity |]. exists v2. auto.
      * right. auto.
    + right. auto.
Qed.

(** C3. With the first two sources failing and the third returning a
    match, [search_cases] calls all three in order, leaves the third
    source's list in its local variable and returns the empty list;
    the same record found by the second source is returned. *)
Theorem search_cases_discards_third_source :
  try_and_assign only_rospravosudie_answers rospravosudie = Some [sample_case] /\
  search_cases only_rospravosudie_answers =
    ({| cases := Some [] |}, [kad_arbitr; sudact; rospravosudie]) /\
  search_cases only_sudact_answers =
    ({| cases := Some [sample_case] |}, [kad_arbitr; sudact]).
Proof. repeat split. Qed.

End CaseSearchFacts.

Section CacheFacts.
Import Py Cache.

Lemma get_setex_same (key : string) (ttl : Z) (v : json_text) (t0 t1 : Z) (db : gmap string entry) :
  (t1 < t0 + ttl)%Z -> get key t1 (setex key ttl v t0 db) = Some v.
Proof.
  intros H. unfold get, setex. rewrite lookup_insert_eq. simpl.
  destruct (Z.ltb_spec t1 (t0 + ttl)); [reflexivity | lia].
Qed.

Lemma get_cached_after_store (query : string) (l : list CaseRecord) (t0 t1 : Z) (db : gmap string entry) :
  (t1 < t0 + default_ttl)%Z ->
  get_cached_result query t1 (cache_search_result query l default_ttl t0 db) = Some l.
Proof.
  intros H. unfold get_cached_result, cache_search_result.
  now rewrite get_setex_same.
Qed.

(** A non-expired entry that holds at least one record is served from the
    cache: no outbound call, the cache is left as it is. *)
Lemma search_cases_hit (_search : searcher) (query : string) (now : Z) (db : gmap string entry)
    (l : list CaseRecord) :
  get_cached_result query now db = Some l -> l <> [] ->
  search_cases _search query now db =
    {| returned := Returns l; db_after := db; outbound_calls := 0 |}.
Proof.
  intros Hget Hne. unfold search_cases. rewrite Hget.
  destruct l as [| c l]; [congruence | reflexivity].
Qed.

(** On a miss, a returned list is stored for 3600 seconds under the
    query's key; when it holds at least one record, the same query
    within that window is answered without an outbound call. *)
Lemma search_cases_miss_then_hit (s1 s2 : searcher) (query : string) (t0 t1 : Z)
    (db : gmap string entry) (results : list CaseRecord) :
  truthy_list (get_cached_result query t0 db) = false ->
  s1 query t0 = Returns results -> results <> [] ->
  (t0 <= t1 < t0 + 3600)%Z ->
  search_cases s1 query t0 db =
    {| returned := Returns results;
       db_after := cache_search_result query results 3600 t0 db;
       outbound_calls := 1 |} /\
  search_cases s2 query t1 (cache_search_result query results 3600 t0 db) =
    {| returned := Returns results;
       db_after := cache_search_result query results 3600 t0 db;
       outbound_calls := 0 |}.
Proof.
  intros Hmiss Hs Hne Ht. split.
  - unfold search_cases. now rewrite Hmiss, Hs.
  - apply search_cases_hit; [| assumption].
    apply get_cached_after_store. unfold default_ttl. lia.
Qed.

(** What the cache does deliver.  A non-expired entry that holds at
    least one record is returned with no outbound call.  On a miss, the
    list a search returns is stored under the query's key for 3600
    seconds, and when it holds at least one record the same query within
    that window is answered from the cache with no outbound call. *)
Theorem cache_serves_nonempty_entries :
  (forall (_search : searcher) (query : string) (now : Z)
          (db : gmap string entry) (l : list CaseRecord),
     get_cached_result query now db = Some l -> l <> [] ->
     search_cases _search query now db =
       {| returned := Returns l; db_after := db; outbound_calls := 0 |}) /\
  (forall (s1 s2 : searcher) (query : string) (t0 t1 : Z)
          (db : gmap string entry) (results : list CaseRecord),
     truthy_list (get_cached_result query t0 db) = false ->
     s1 query t0 = Returns results -> results <> [] ->
     (t0 <= t1 < t0 + 3600)%Z ->
     search_cases s1 query t0 db =
       {| returned := Returns results;
          db_after := cache_search_result query results 3600 t0 db;
          outbound_calls := 1 |} /\
     search_cases s2 query t1 (cache_search_result query results 3600 t0 db) =
       {| returned := Returns results;
          db_after := cache_search_result query results 3600 t0 db;
          outbound_calls := 0 |}).
Proof.
  split.
  - exact search_cases_hit.
  - exact search_cases_miss_then_hit.
Qed.

(** A match found at instant 10 is served from the cache one second
    before the hour is over. *)
Lemma cache_serves_nonempty_entries_witness :
  outbound_calls
    (search_cases empty_then_match "penalty" 3609
       (cache_search_result "penalty" [late_match] 3600 10 ∅)) = 0.
Proof.
  destruct (proj2 cache_serves_nonempty_entries empty_then_match empty_then_match
              "penalty" 10%Z 3609%Z ∅ [late_match]) as [_ H].
  - reflexivity.
  - reflexivity.
  - discriminate.
  - lia.
  - rewrite H. reflexivity.
Defined.

(** C4.  The query's first search returns no record at instant 0 and
    the empty list is stored for an hour.  At instant 10 the entry is
    still there, yet the same query makes a new outbound call and
    returns the fresh list, not the cached value. *)
Theorem search_cases_ignores_cached_empty_list :
  let first := search_cases empty_then_match "penalty" 0 (∅ : gmap string entry) in
  let second := search_cases empty_then_match "penalty" 10 (db_after first) in
  returned first = Returns [] /\
  get_cached_result "penalty" 10 (db_after first) = Some [] /\
  outbound_calls second = 1 /\
  returned second = Returns [late_match].
Proof. vm_compute. repeat split. Qed.

End CacheFacts.

Section LLMFacts.
Import Py LLM.
Context {W : Type}.

Ltac run_request c sys p w :=
  let r := fresh "r" in let w' := fresh "w" in let E := fresh "E" in
  destruct (request c sys p w) as [r w'] eqn:E; destruct r; simpl.

Lemma client_generate_raises (c : ProviderClient W) sys p w e w' log :
  client_generate c sys p w = (Raises e, w', log) -> log = exhausted_log c.
Proof.
  unfold client_generate, MAX_ATTEMPTS, exhausted_log. simpl.
  unfold bind, tell, do_request, ret. simpl.
  run_request c sys p w; [intros H; inversion H |].
  run_request c sys p w0; [intros H; inversion H |].
  run_request c sys p w1; intros H; inversion H; reflexivity.
Qed.

Lemma client_generate_exhausted (c : ProviderClient W) sys p w w' e :
  fails_all_attempts c sys p w w' e ->
  client_generate c sys p w = (Raises e, w', exhausted_log c).
Proof.
  intros (e0 & e1 & w1 & w2 & H0 & H1 & H2).
  unfold client_generate, MAX_ATTEMPTS, exhausted_log. simpl.
  unfold bind, tell, do_request, ret. simpl.
  now rewrite H0, H1, H2.
Qed.

Lemma client_generate_returns (c : ProviderClient W) sys p w resp w' log :
  client_generate c sys p w = (Returns resp, w', log) ->
  provider resp = name c /\ Forall (fun ev => event_provider ev = name c) log.
Proof.
  unfold client_generate, MAX_ATTEMPTS. simpl.
  unfold bind, tell, do_request, ret. simpl.
  run_request c sys p w.
  { intros H; inversion H; subst. split; [reflexivity | repeat constructor]. }
  run_request c sys p w0.
  { intros H; inversion H; subst. split; [reflexivity | repeat constructor]. }
  run_request c sys p w1; intros H; inversion H; subst.
  split; [reflexivity | repeat constructor].
Qed.

Lemma attempts_of_app (n : string) (l1 l2 : list event) :
  attempts_of n (l1 ++ l2) = attempts_of n l1 + attempts_of n l2.
Proof. unfold attempts_of. now rewrite List.filter_app, List.length_app. Qed.

Lemma backoffs_of_app (n : string) (l1 l2 : list event) :
  backoffs_of n (l1 ++ l2) = backoffs_of n l1 ++ backoffs_of n l2.
Proof. unfold backoffs_of. apply List.flat_map_app. Qed.

Lemma exhausted_log_counts (c : ProviderClient W) :
  attempts_of (name c) (exhausted_log c) = 3 /\
  backoffs_of (name c) (exhausted_log c) = [backoff_base c; backoff_base c * 2].
Proof.
  unfold attempts_of, backoffs_of, exhausted_log, backoff_delay. simpl.
  rewrite String.eqb_refl. simpl. split; [reflexivity |].
  f_equal. lia.
Qed.

Lemma other_provider_log (n m : string) (log : list event) :
  m <> n -> Forall (fun ev => event_provider ev = m) log ->
  attempts_of n log = 0 /\ backoffs_of n log = [].
Proof.
  intros Hne H. induction H as [| ev log Hev _ [IH1 IH2]]; [split; reflexivity |].
  unfold attempts_of, backoffs_of in *. simpl.
  destruct ev as [p k | p d]; simpl in Hev; subst p.
  - destruct (String.eqb_spec m n) as [-> | _]; [congruence |]. now split.
  - destruct (String.eqb_spec m n) as [-> | _]; [congruence |]. now split.
Qed.

Lemma generate_failover (mc : MultiLLMClient W) sys prompt w0 w1 w2 e1 resp log2 :
  name (primary mc) <> name (fallback mc) ->
  fails_all_attempts (primary mc) sys prompt w0 w1 e1 ->
  client_generate (fallback mc) sys prompt w1 = (Returns resp, w2, log2) ->
  exists log,
    generate mc sys prompt true w0 = (inl resp, w2, log) /\
    provider resp = name (fallback mc) /\
    attempts_of (name (primary mc)) log = 3 /\
    backoffs_of (name (primary mc)) log =
      [backoff_base (primary mc); backoff_base (primary mc) * 2].
Proof.
  intros Hne H1 H2. apply client_generate_exhausted in H1.
  exists (exhausted_log (primary mc) ++ log2 ++ []).
  destruct (client_generate_returns _ _ _ _ _ _ _ H2) as [Hp Hlog].
  destruct (exhausted_log_counts (primary mc)) as [Ha Hb].
  destruct (other_provider_log (name (primary mc)) _ log2 (not_eq_sym Hne) Hlog)
    as [Ha2 Hb2].
  split; [| split; [exact Hp | split]].
  - unfold generate, bind. rewrite H1, H2. reflexivity.
  - rewrite !attempts_of_app, Ha, Ha2. reflexivity.
  - rewrite !backoffs_of_app, Hb, Hb2. reflexivity.
Qed.

Lemma generate3_failover (mc : MultiLLMClient3 W) sys prompt w0 w1 w2 e1 resp log2 :
  name (primary_client mc) <> name (fallback_client mc) ->
  fails_all_attempts (primary_client mc) sys prompt w0 w1 e1 ->
  client_generate (fallback_client mc) sys prompt w1 = (Returns resp, w2, log2) ->
  exists log,
    generate3 mc sys prompt w0 = (Returns resp, w2, log) /\
    provider resp = name (fallback_client mc) /\
    attempts_of (name (primary_client mc)) log = 3.
Proof.
  intros Hne H1 H2. apply client_generate_exhausted in H1.
  exists (exhausted_log (primary_client mc) ++ log2 ++ []).
  destruct (client_generate_returns _ _ _ _ _ _ _ H2) as [Hp Hlog].
  destruct (exhausted_log_counts (primary_client mc)) as [Ha _].
  destruct (other_provider_log (name (primary_client mc)) _ log2
              (not_eq_sym Hne) Hlog) as [Ha2 _].
  split; [| split; [exact Hp |]].
  - unfold generate3, bind. rewrite H1, H2. reflexivity.
  - rewrite !attempts_of_app, Ha, Ha2. reflexivity.
Qed.

Lemma generate3_second_failover (mc : MultiLLMClient3 W) sys prompt
    w0 w1 w2 w3 e1 e2 resp log3 :
  name (primary_client mc) <> name (fallback_client mc) ->
  name (primary_client mc) <> name (secondary_fallback mc) ->
  fails_all_attempts (primary_client mc) sys prompt w0 w1 e1 ->
  fails_all_attempts (fallback_client mc) sys prompt w1 w2 e2 ->
  client_generate (secondary_fallback mc) sys prompt w2 = (Returns resp, w3, log3) ->
  exists log,
    generate3 mc sys prompt w0 = (Returns resp, w3, log) /\
    provider resp = name (secondary_fallback mc) /\
    attempts_of (name (primary_client mc)) log = 3.
Proof.
  intros Hne Hne' H1 H2 H3.
  apply client_generate_exhausted in H1. apply client_generate_exhausted in H2.
  exists (exhausted_log (primary_client mc)
          ++ exhausted_log (fallback_client mc) ++ log3).
  destruct (client_generate_returns _ _ _ _ _ _ _ H3) as [Hp Hlog].
  destruct (exhausted_log_counts (primary_client mc)) as [Ha _].
  destruct (other_provider_log (name (primary_client mc)) _ log3
              (not_eq_sym Hne') Hlog) as [Ha3 _].
  assert (Ha2 : attempts_of (name (primary_client mc))
                  (exhausted_log (fallback_client mc)) = 0).
  { apply (other_provider_log _ (name (fallback_client mc)));
      [now apply not_eq_sym | repeat constructor]. }
  split; [| split; [exact Hp |]].
  - unfold generate3, bind. rewrite H1, H2, H3. reflexivity.
  - rewrite !attempts_of_app, Ha, Ha2, Ha3. reflexivity.
Qed.

(** With both providers failing, the two-provider [generate] raises one
    error that lists the last failure of each, in order. *)
Lemma generate_all_fail (mc : MultiLLMClient W) sys prompt w0 w1 w2 e1 e2 :
  fails_all_attempts (primary mc) sys prompt w0 w1 e1 ->
  fails_all_attempts (fallback mc) sys prompt w1 w2 e2 ->
  generate mc sys prompt true w0 =
    (inr {| provider_errors :=
              [(name (primary mc), e1); (name (fallback mc), e2)] |},
     w2, exhausted_log (primary mc) ++ exhausted_log (fallback mc) ++ []).
Proof.
  intros H1 H2.
  apply client_generate_exhausted in H1. apply client_generate_exhausted in H2.
  unfold generate, bind. now rewrite H1, H2.
Qed.

(** C1. When the primary fails all its attempts and a later provider
    answers, [generate] returns that provider's response, tagged with
    that provider's name, and the log holds exactly three attempts of the
    primary, separated by pauses of the base delay and of twice the base
    delay.  This holds for the two-provider client and for the
    three-provider client, whichever of its later providers answers. *)
Theorem failover_after_three_attempts :
  (forall (mc : MultiLLMClient W) sys prompt w0 w1 w2 e1 resp log2,
     name (primary mc) <> name (fallback mc) ->
     fails_all_attempts (primary mc) sys prompt w0 w1 e1 ->
     client_generate (fallback mc) sys prompt w1 = (Returns resp, w2, log2) ->
     exists log,
       generate mc sys prompt true w0 = (inl resp, w2, log) /\
       provider resp = name (fallback mc) /\
       attempts_of (name (primary mc)) log = 3 /\
       backoffs_of (name (primary mc)) log =
         [backoff_base (primary mc); backoff_base (primary mc) * 2]) /\
  (forall (mc : MultiLLMClient3 W) sys prompt w0 w1 w2 e1 resp log2,
     name (primary_client mc) <> name (fallback_client mc) ->
     fails_all_attempts (primary_client mc) sys prompt w0 w1 e1 ->
     client_generate (fallback_client mc) sys prompt w1 = (Returns resp, w2, log2) ->
     exists log,
       generate3 mc sys prompt w0 = (Returns resp, w2, log) /\
       provider resp = name (fallback_client mc) /\
       attempts_of (name (primary_client mc)) log = 3) /\
  (forall (mc : MultiLLMClient3 W) sys prompt w0 w1 w2 w3 e1 e2 resp log3,
     name (primary_client mc) <> name (fallback_client mc) ->
     name (primary_client mc) <> name (secondary_fallback mc) ->
     fails_all_attempts (primary_client mc) sys prompt w0 w1 e1 ->
     fails_all_attempts (fallback_client mc) sys prompt w1 w2 e2 ->
     client_generate (secondary_fallback mc) sys prompt w2 = (Returns resp, w3, log3) ->
     exists log,
       generate3 mc sys prompt w0 = (Returns resp, w3, log) /\
       provider resp = name (secondary_fallback mc) /\
       attempts_of (name (primary_client mc)) log = 3).
Proof.
  split; [| split].
  - intros. eapply generate_failover; eassumption.
  - intros. eapply generate3_failover; eassumption.
  - intros. eapply generate3_second_failover; eassumption.
Qed.

End LLMFacts.

Section LLMRuns.
Import Py LLM.

(** OpenRouter times out three times, Perplexity answers at once. *)
Lemma failover_after_three_attempts_witness :
  exists log,
    generate primary_down None "Article 330 of the Civil Code" true 0 =
      (inl {| content := "Article 330"; provider := "perplexity" |}, 4, log) /\
    provider {| content := "Article 330"; provider := "perplexity" |} = "perplexity" /\
    attempts_of "openrouter" log = 3 /\
    backoffs_of "openrouter" log = [1; 2].
Proof.
  apply (proj1 failover_after_three_attempts primary_down None
           "Article 330 of the Civil Code" 0 3 4 "timeout"
           {| content := "Article 330"; provider := "perplexity" |}
           [Attempt "perplexity" 0]).
  - simpl. discriminate.
  - exists "timeout", "timeout", 1, 2. repeat split.
  - reflexivity.
Defined.

(** C2. With three providers configured as the guide's extension section
    shows and all of them failing, [generate] makes nine attempts and
    raises the third provider's error alone; the failures of the first
    two providers are not in it. *)
Theorem generate3_raises_last_error_only :
  exists log,
    generate3 all_down None "Article 330 of the Civil Code" 0 =
      (Raises "HTTP 503", 9, log) /\
    attempts_of "openrouter" log = 3 /\
    attempts_of "perplexity" log = 3 /\
    attempts_of "new_provider" log = 3.
Proof. eexists. vm_compute. repeat split. Qed.

End LLMRuns.

Section WorkflowFacts.
Import Py Workflow.

Lemma run_executed (stages : list Stage) (s : AgentState) :
  executed (run stages s) = map stage_name stages.
Proof.
  revert s. induction stages as [| st rest IH]; intros s; simpl; [reflexivity |].
  destruct (stage_fn st s) as [s' | e s']; simpl; now rewrite IH.
Qed.

Lemma run_app (pre post : list Stage) (s : AgentState) :
  final (run (pre ++ post) s) = final (run post (final (run pre s))) /\
  failures (run (pre ++ post) s) =
    failures (run pre s) ++ failures (run post (final (run pre s))).
Proof.
  revert s. induction pre as [| st rest IH]; intros s; simpl; [split; reflexivity |].
  destruct (stage_fn st s) as [s' | e s']; simpl.
  - destruct (IH s') as [-> ->]. split; reflexivity.
  - destruct (IH (set_error e s')) as [-> ->]. split; reflexivity.
Qed.

Lemma run_failed_stage (st : Stage) (post : list Stage) (s s' : AgentState) (e : string) :
  stage_fn st s = Failed e s' ->
  final (run (st :: post) s) = final (run post (set_error e s')) /\
  failures (run (st :: post) s) =
    (stage_name st, e) :: failures (run post (set_error e s')).
Proof. intros H. simpl. rewrite H. split; reflexivity. Qed.







(** C5.  In the engine, for every list of declared stages: every stage
    is entered, in declared order, whatever fails; the failure of a
    stage is stored in [state.error] of the state handed on, the
    remaining stages run from that state, and the failure is on record.
    In the five-stage workflow with the norm retrieval failing, the
    case search still runs (it absorbs the failures of its sources and
    never fails itself) and the answer is generated and verified from
    empty norms and the cases the chain returned. *)
Theorem stage_failure_never_aborts :
  (forall (stages : list Stage) (s : AgentState),
     executed (run stages s) = map stage_name stages) /\
  (forall (pre : list Stage) (st : Stage) (post : list Stage)
          (s s' : AgentState) (e : string),
     stage_fn st (final (run pre s)) = Failed e s' ->
     final (run (pre ++ [st]) s) = set_error e s' /\
     error (final (run (pre ++ [st]) s)) = Some e /\
     final (run (pre ++ st :: post) s) = final (run post (set_error e s')) /\
     In (stage_name st, e) (failures (run (pre ++ st :: post) s))) /\
  (forall (lg : Logic) (q : string) (lt : option string) (e1 a a' : string)
          (found : list Py.CaseRecord),
     classify lg q = Returns lt ->
     retrieve_norms lg q lt = Raises e1 ->
     CaseSearch.cases (fst (CaseSearch.search_cases (case_sources lg q))) =
       Some found ->
     generate lg q [] found = Returns a ->
     verify lg a [] found = Returns a' ->
     invoke lg (initial q) =
       {| final := {| query := Some q; law_type := lt; norms := None;
                      cases := Some found; answer := Some a';
                      trace := Some ["classify_query"; "generate_answer";
                                     "verify_citation"];
                      error := Some e1 |};
          executed := stage_names;
          failures := [("search_norms", e1)] |}).
Proof.
  split; [exact run_executed | split].
  - intros pre st post s s' e H.
    destruct (run_app pre (st :: post) s) as [Hf Hl].
    destruct (run_failed_stage st post _ _ _ H) as [Hf' Hl'].
    destruct (run_app pre [st] s) as [Hf1 _].
    destruct (run_failed_stage st [] _ _ _ H) as [Hf1' _].
    assert (Hone : final (run (pre ++ [st]) s) = set_error e s').
    { now rewrite Hf1, Hf1'. }
    split; [exact Hone | split; [now rewrite Hone | split]].
    + now rewrite Hf, Hf'.
    + rewrite Hl, Hl'. apply List.in_or_app. right. now left.
  - intros lg q lt e1 a a' found Hc Hn Hs Hg Hv.
    unfold invoke, workflow, run, stage_fn, stage_name.
    unfold classify_query, search_norms, search_cases, generate_answer,
      verify_citation, node.
    cbn. rewrite Hc. cbn. rewrite Hn. cbn. rewrite Hs. cbn. rewrite Hg.
    cbn. rewrite Hv. reflexivity.
Qed.

(** With the norm retrieval and every case source down, all five stages
    run, the cases are the empty list, and the answer is the one
    generated from no evidence. *)
Lemma stage_failure_never_aborts_witness :
  executed (invoke retrieval_down (initial "Article 330")) = stage_names /\
  cases (final (invoke retrieval_down (initial "Article 330"))) = Some [] /\
  answer (final (invoke retrieval_down (initial "Article 330"))) =
    Some "no evidence found" /\
  error (final (invoke retrieval_down (initial "Article 330"))) =
    Some "database unreachable".
Proof.
  rewrite (proj2 (proj2 stage_failure_never_aborts) retrieval_down "Article 330"
             (Some "civil") "database unreachable"
             "no evidence found" "no evidence found" []
             eq_refl eq_refl eq_refl eq_refl eq_refl).
  repeat split.
Defined.




End WorkflowFacts.

Section SortFacts.
Import Retriever.
Context {A : Type} (before : A -> A -> bool).
Hypothesis before_total : forall a b, before a b = false -> before b a = true.
Hypothesis before_trans :
  forall a b c, before a b = true -> before b c = true -> before a c = true.

Lemma insert_by_perm (x : A) (l : list A) :
  Permutation (insert_by before x l) (x :: l).
Proof.
  induction l as [| y rest IH]; simpl; [reflexivity |].
  destruct (before x y); [reflexivity |].
  rewrite IH. apply perm_swap.
Qed.

Lemma sort_by_perm (l : list A) : Permutation (sort_by before l) l.
Proof.
  induction l as [| x rest IH]; simpl; [reflexivity |].
  rewrite insert_by_perm. now apply perm_skip.
Qed.

Lemma sort_by_length (l : list A) : length (sort_by before l) = length l.
Proof. apply Permutation_length, sort_by_perm. Qed.

Lemma insert_by_sorted (x : A) (l : list A) :
  StronglySorted (fun a b => before a b = true) l ->
  StronglySorted (fun a b => before a b = true) (insert_by before x l).
Proof.
  induction l as [| y rest IH]; simpl; intros Hs.
  - constructor; constructor.
  - inversion Hs as [| ? ? Hrest Hall]; subst.
    destruct (before x y) eqn:E.
    + constructor; [assumption |]. constructor; [assumption |].
      eapply List.Forall_impl; [| exact Hall]. intros z Hz. cbv beta in *.
      eapply before_trans; eassumption.
    + constructor; [now apply IH |].
      eapply Permutation_Forall; [symmetry; apply insert_by_perm |].
      constructor; [now apply before_total | assumption].
Qed.

Lemma sort_by_sorted (l : list A) :
  StronglySorted (fun a b => before a b = true) (sort_by before l).
Proof.
  induction l as [| x rest IH]; simpl; [constructor |].
  now apply insert_by_sorted.
Qed.

End SortFacts.

Section RetrieverFacts.
Import Retriever.

Lemma StronglySorted_firstn {A} (R : A -> A -> Prop) (n : nat) (l : list A) :
  StronglySorted R l -> StronglySorted R (firstn n l).
Proof.
  revert l. induction n as [| n IH]; intros l H; simpl; [constructor |].
  destruct l as [| a l]; [constructor |].
  inversion H as [| ? ? Hs Hall]; subst. constructor; [now apply IH |].
  apply List.Forall_forall. intros x Hx. rewrite List.Forall_forall in Hall.
  apply Hall. clear - Hx. revert n Hx.
  induction l as [| b l IHl]; intros [| n]; simpl; try tauto.
  intros [-> | H]; [now left | right; eauto].
Qed.

Lemma StronglySorted_map {A B} (f : A -> B) (R : B -> B -> Prop) (l : list A) :
  StronglySorted (fun a b => R (f a) (f b)) l -> StronglySorted R (map f l).
Proof.
  induction 1 as [| a l _ IH Hall]; simpl; constructor; [assumption |].
  apply List.Forall_forall. intros y Hy. apply List.in_map_iff in Hy as [x [<- Hx]].
  rewrite List.Forall_forall in Hall. now apply Hall.
Qed.

Lemma ranks_before_spec (score : Chunk -> Q) (a b : Chunk) :
  ranks_before score a b = true <->
  (score b < score a)%Q \/ ((score a == score b)%Q /\ offset a <= offset b).
Proof.
  unfold ranks_before. rewrite orb_true_iff, andb_true_iff, negb_true_iff.
  rewrite Qeq_bool_iff, Nat.leb_le.
  split; (intros [H | H]; [left | right; exact H]).
  - destruct (Qlt_le_dec (score b) (score a)) as [Hlt | Hle]; [assumption |].
    apply Qle_bool_iff in Hle. congruence.
  - destruct (Qle_bool (score a) (score b)) eqn:E; [| reflexivity].
    apply Qle_bool_iff in E. lra.
Qed.

Lemma ranks_before_total (score : Chunk -> Q) (a b : Chunk) :
  ranks_before score a b = false -> ranks_before score b a = true.
Proof.
  intros H. apply ranks_before_spec.
  destruct (Qlt_le_dec (score a) (score b)) as [Hlt | Hle]; [now left |].
  destruct (Qlt_le_dec (score b) (score a)) as [Hlt' | Hle'].
  - assert (ranks_before score a b = true) by (apply ranks_before_spec; now left).
    congruence.
  - right. split; [lra |].
    destruct (Nat.le_gt_cases (offset b) (offset a)) as [Ho | Ho]; [assumption |].
    assert (ranks_before score a b = true).
    { apply ranks_before_spec. right. split; [lra | lia]. }
    congruence.
Qed.

Lemma ranks_before_trans (score : Chunk -> Q) (a b c : Chunk) :
  ranks_before score a b = true -> ranks_before score b c = true ->
  ranks_before score a c = true.
Proof.
  rewrite !ranks_before_spec.
  intros [H1 | [H1 O1]] [H2 | [H2 O2]].
  - left. lra.
  - left. lra.
  - left. lra.
  - right. split; [lra | lia].
Qed.

Lemma StronglySorted_weaken {A} (R R' : A -> A -> Prop) (l : list A) :
  (forall a b, R a b -> R' a b) -> StronglySorted R l -> StronglySorted R' l.
Proof.
  intros HR. induction 1 as [| a l _ IH Hall]; constructor; [assumption |].
  eapply List.Forall_impl; [| exact Hall]. intros b. apply HR.
Qed.

Lemma ranking_length (score : Chunk -> Q) (width : nat) (corpus : list Chunk) :
  length (ranking score width corpus) = Nat.min width (length corpus).
Proof. unfold ranking. now rewrite List.length_firstn, sort_by_length. Qed.

Lemma ranking_all (score : Chunk -> Q) (width : nat) (corpus : list Chunk) :
  length corpus <= width ->
  ranking score width corpus = sort_by (ranks_before score) corpus.
Proof.
  intros H. unfold ranking. apply List.firstn_all2. now rewrite sort_by_length.
Qed.

Lemma has_id_member (l : list Chunk) (c : Chunk) : In c l -> has_id l c = true.
Proof.
  intros H. unfold has_id. apply List.existsb_exists. exists c.
  split; [assumption | apply Nat.eqb_refl].
Qed.

Lemma candidates_length_ge (cfg : Config) (corpus : list Chunk) (query : string) :
  Nat.min (candidate_width cfg) (length corpus) <=
  length (candidates cfg corpus query).
Proof.
  unfold candidates, merge_by_id. rewrite List.length_app, ranking_length. lia.
Qed.

Lemma candidates_small_corpus (cfg : Config) (corpus : list Chunk) (query : string) :
  length corpus <= candidate_width cfg ->
  candidates cfg corpus query =
    sort_by (ranks_before (lexical_score cfg query)) corpus.
Proof.
  intros H. unfold candidates, merge_by_id. rewrite !ranking_all by assumption.
  rewrite <- List.app_nil_r. f_equal.
  set (lex := sort_by (ranks_before (lexical_score cfg query)) corpus).
  set (vec := sort_by (ranks_before (vector_score cfg query)) corpus).
  assert (Hin : forall c, In c vec -> In c lex).
  { intros c Hc. unfold lex, vec in *.
    eapply Permutation_in; [symmetry; apply sort_by_perm |].
    eapply Permutation_in; [apply sort_by_perm | exact Hc]. }
  clearbody vec. induction vec as [| c vec IH]; simpl; [reflexivity |].
  rewrite has_id_member by (apply Hin; now left). simpl.
  apply IH. intros d Hd. apply Hin. now right.
Qed.

Lemma retrieve_length (cfg : Config) (corpus : list Chunk) (query : string) (topN : nat) :
  length (retrieve cfg corpus query topN) =
  Nat.min topN (length (candidates cfg corpus query)).
Proof.
  unfold retrieve. now rewrite List.length_map, List.length_firstn, sort_by_length.
Qed.

Lemma retrieve_sorted (cfg : Config) (corpus : list Chunk) (query : string) (topN : nat) :
  StronglySorted in_rank_order (retrieve cfg corpus query topN).
Proof.
  unfold retrieve.
  set (score := final_score cfg query (candidates cfg corpus query)).
  apply StronglySorted_map. apply StronglySorted_firstn.
  eapply StronglySorted_weaken;
    [| apply sort_by_sorted;
       [apply ranks_before_total | apply ranks_before_trans]].
  intros a b Hab. apply ranks_before_spec in Hab. unfold in_rank_order. simpl.
  destruct Hab as [Hlt | [Heq Hoff]].
  - split; [lra | intros Heq; lra].
  - split; [lra | intros _; exact Hoff].
Qed.

(** C7.  With a candidate width above [topN], [retrieve] returns its
    entries in rank order (scores do not increase; equal scores come
    with offsets that do not decrease), each entry carries the final
    combined score of its chunk, the length is at most [topN], exactly
    [topN] when the corpus holds at least [topN] chunks, and otherwise
    the output holds every chunk of the corpus. *)
Theorem retrieve_top_n (cfg : Config) (corpus : list Chunk) (query : string) (topN : nat) :
  topN < candidate_width cfg ->
  StronglySorted in_rank_order (retrieve cfg corpus query topN) /\
  Forall (fun x => snd x = final_score cfg query (candidates cfg corpus query) (fst x))
         (retrieve cfg corpus query topN) /\
  length (retrieve cfg corpus query topN) <= topN /\
  (topN <= length corpus -> length (retrieve cfg corpus query topN) = topN) /\
  (length corpus < topN ->
   Permutation (map fst (retrieve cfg corpus query topN)) corpus).
Proof.
  intros HK. pose proof (candidates_length_ge cfg corpus query) as Hge.
  pose proof (retrieve_length cfg corpus query topN) as Hlen.
  split; [apply retrieve_sorted | split; [| split; [lia | split]]].
  - unfold retrieve. apply List.Forall_forall. intros x Hx.
    apply List.in_map_iff in Hx as [c [<- _]]. reflexivity.
  - intros Hn. lia.
  - intros Hn. unfold retrieve.
    rewrite List.map_map. simpl. rewrite List.map_id.
    rewrite List.firstn_all2.
    + rewrite sort_by_perm. rewrite candidates_small_corpus by lia.
      apply sort_by_perm.
    + rewrite sort_by_length, candidates_small_corpus by lia.
      rewrite sort_by_length. lia.
Qed.

End RetrieverFacts.

Section RetrieverRuns.
Import Retriever.

(** All three chunks score 1/2, so the offsets decide: the chunk at
    offset 0, then the chunk at offset 100. *)
Lemma retrieve_top_n_witness :
  map (fun x => chunk_id (fst x)) (retrieve sample_config sample_corpus "penalty" 2)
    = [2; 3] /\
  StronglySorted in_rank_order (retrieve sample_config sample_corpus "penalty" 2) /\
  length (retrieve sample_config sample_corpus "penalty" 2) = 2.
Proof.
  split; [reflexivity |].
  pose proof (retrieve_top_n sample_config sample_corpus "penalty" 2) as H.
  simpl in H. destruct H as [Hs [_ [_ [Hl _]]]]; [lia |].
  split; [exact Hs | apply Hl; lia].
Defined.

End RetrieverRuns.

(* ===================================================================== *)
(** * Part III: further properties of the code                            *)
(* ===================================================================== *)

Section TrimFacts.
Import JS QueryInput.

Lemma trimStart_nil_iff (s : jsstring) :
  trimStart s = [] <-> forallb is_trim_space s = true.
Proof.
  induction s as [| c s IH]; simpl; [tauto |].
  destruct (is_trim_space c); simpl; [exact IH |].
  split; intros H; discriminate H.
Qed.

Lemma trimStart_head (s : jsstring) (c : N) (r : jsstring) :
  trimStart s = c :: r -> is_trim_space c = false.
Proof.
  induction s as [| d s IH]; simpl; [discriminate |].
  destruct (is_trim_space d) eqn:E; [exact IH |].
  intros H. injection H as -> _. exact E.
Qed.

Lemma forallb_rev' {A} (p : A -> bool) (l : list A) :
  forallb p (rev l) = forallb p l.
Proof.
  induction l as [| a l IH]; simpl; [reflexivity |].
  rewrite List.forallb_app, IH. simpl. rewrite andb_true_r. apply andb_comm.
Qed.

Lemma trim_nil_iff (s : jsstring) :
  trim s = [] <-> forallb is_trim_space s = true.
Proof.
  unfold trim, trimEnd. split.
  - intros H. apply (f_equal (@rev N)) in H. rewrite rev_involutive in H.
    simpl in H. apply trimStart_nil_iff in H. rewrite forallb_rev' in H.
    destruct (trimStart s) as [| c r] eqn:E; [now apply trimStart_nil_iff |].
    apply trimStart_head in E. simpl in H. rewrite E in H. discriminate H.
  - intros H. apply trimStart_nil_iff in H. rewrite H. reflexivity.
Qed.

(** X1. A search can be started from the input exactly when it holds at
    least one code unit that is not white space: then, and only then,
    the button is enabled and both the click and Enter call [onSearch]. *)
Theorem search_possible_iff_not_blank (query : jsstring) :
  let not_blank := exists c, In c query /\ is_trim_space c = false in
  (button_disabled false query = false <-> not_blank) /\
  (handleSearch query = [query] <-> not_blank) /\
  (handleKeyPress (lit "Enter") query = [query] <-> not_blank) /\
  (click false query = [query] <-> not_blank).
Proof.
  assert (Hnb : truthy (trim query) = true <->
                exists c, In c query /\ is_trim_space c = false).
  { rewrite truthy_nonempty, trim_nil_iff. split.
    - intros H. destruct (forallb is_trim_space query) eqn:E; [congruence |].
      clear H. induction query as [| c q IH]; [discriminate |]. simpl in E.
      destruct (is_trim_space c) eqn:Ec.
      + destruct (IH E) as [d [Hd Hs]]. exists d. split; [now right | exact Hs].
      + exists c. split; [now left | exact Ec].
    - intros [c [Hin Hc]] H. rewrite List.forallb_forall in H.
      rewrite (H c Hin) in Hc. discriminate. }
  cbv zeta. unfold button_disabled, click, button_disabled, handleSearch,
    handleKeyPress.
  replace (streq (lit "Enter") (lit "Enter")) with true by reflexivity.
  simpl. destruct (truthy (trim query)); simpl;
    repeat split; intros; try discriminate; try reflexivity;
    try (apply Hnb; reflexivity);
    match goal with H : _ |- _ => apply Hnb in H; discriminate H end.
Qed.

End TrimFacts.

Section SearchPhasesFacts.
Import JS SearchResults SearchPhases Views.

Lemma search_split (o : fetch_outcome) (st : HookState) :
  search o st = search_settle o (search_begin st).
Proof. reflexivity. Qed.

Lemma units_uint_round_trip (d : Decimal.uint) : units_uint (uint_units d) = Some d.
Proof. induction d; simpl; try rewrite IHd; reflexivity. Qed.

(** X2. For a response with a non-ok status the body is never read: the
    state after the call is the same for every body, [results] is empty,
    and the error text is the prefix followed by the decimal status, so
    it is shown and the status can be read back from it. *)
Theorem server_error_text (status : N) (body body' : json_outcome) (st : HookState) :
  search (FetchResponse false status body) st =
    search (FetchResponse false status body') st /\
  results (search (FetchResponse false status body) st) = [] /\
  error (search (FetchResponse false status body) st) =
    Some (server_error_prefix ++ number_toString status) /\
  shown (error (search (FetchResponse false status body) st)) = true /\
  status_of_message (server_error_prefix ++ number_toString status) = Some status.
Proof.
  repeat split.
  unfold status_of_message, number_toString.
  change (skipn (length server_error_prefix)
            (server_error_prefix ++ uint_units (N.to_uint status)))
    with (uint_units (N.to_uint status)).
  rewrite units_uint_round_trip. f_equal. apply DecimalN.Unsigned.of_to.
Qed.

(** X18. [clearResults] after a completed search puts the hook back in
    its initial state; it never touches [loading], so during a pending
    search the spinner stays; and clearing twice is clearing once. *)
Theorem clearResults_resets (o : fetch_outcome) (st : HookState) :
  clearResults (search o st) = initialHook /\
  loading (clearResults st) = loading st /\
  clearResults (search_begin st) =
    {| results := []; loading := true; error := None |} /\
  clearResults (clearResults st) = clearResults st.
Proof. repeat split. Qed.

End SearchPhasesFacts.

Section HomeFacts.
Import JS SearchResults SearchHistory SearchPhases Views Home.

Lemma home_inv_initial : home_inv initialHome.
Proof.
  unfold home_inv, initialHome. simpl.
  repeat split; try discriminate; try constructor; lia.
Qed.

Lemma updated_Forall (P : jsstring -> Prop) (q : jsstring) (prev : list jsstring) :
  P q -> Forall P prev -> Forall P (updated q prev).
Proof.
  intros Hq Hp. rewrite updated_unfold. constructor; [exact Hq |].
  apply List.Forall_forall. intros x Hx. apply In_firstn in Hx.
  apply List.filter_In in Hx as [Hx _].
  rewrite List.Forall_forall in Hp. now apply Hp.
Qed.

Lemma home_inv_begin (q : jsstring) (st : HomeState) :
  trim q <> [] -> home_inv st -> home_inv (handleSearch_begin q st).
Proof.
  intros Hq (H1 & H2 & H3 & H4 & H5 & H6). unfold home_inv, handleSearch_begin.
  simpl. repeat split.
  - lia.
  - exact H3.
  - now apply updated_Forall.
  - now apply updated_NoDup.
  - apply updated_length.
Qed.

Lemma home_inv_settle (o : fetch_outcome) (st : HomeState) :
  home_inv st -> home_inv (handleSearch_settle o st).
Proof.
  intros (H1 & H2 & H3 & H4 & H5 & H6). unfold handleSearch_settle.
  destruct (pending st) as [| n] eqn:E; [unfold home_inv; rewrite E; tauto |].
  unfold home_inv. simpl. repeat split; try discriminate; assumption.
Qed.

Lemma home_inv_step (st : HomeState) (e : event) :
  home_inv st -> home_inv (step st e).
Proof.
  intros Hinv. destruct e as [typed | key typed | index | o | index]; simpl.
  - unfold QueryInput.click.
    destruct (QueryInput.button_disabled (loading (hook st)) typed); [exact Hinv |].
    unfold QueryInput.handleSearch. destruct (truthy (trim typed)) eqn:E;
      [| exact Hinv].
    simpl. apply home_inv_begin; [now apply truthy_nonempty | exact Hinv].
  - destruct (loading (hook st)); [exact Hinv |].
    unfold QueryInput.handleKeyPress.
    destruct (streq key (lit "Enter")); simpl; [| exact Hinv].
    destruct (truthy (trim typed)) eqn:E; [| exact Hinv].
    simpl. apply home_inv_begin; [now apply truthy_nonempty | exact Hinv].
  - unfold history_click.
    destruct (nth_error (history (hist st)) index) as [item |] eqn:E;
      [| exact Hinv].
    apply home_inv_begin; [| exact Hinv].
    destruct Hinv as (_ & _ & _ & H4 & _). rewrite List.Forall_forall in H4.
    apply H4. eapply List.nth_error_In. exact E.
  - now apply home_inv_settle.
  - destruct (list_visible st); [| exact Hinv].
    unfold card_click.
    destruct (nth_error (results (hook st)) index) as [r |] eqn:E; [| exact Hinv].
    destruct Hinv as (H1 & H2 & H3 & H4 & H5 & H6).
    unfold home_inv. simpl. repeat split; try assumption.
    intros r' Hr'. injection Hr' as <-. eapply List.nth_error_In. exact E.
Qed.

Lemma home_inv_run (events : list event) (st : HomeState) :
  home_inv st -> home_inv (run events st).
Proof.
  revert st. induction events as [| e events IH]; intros st H; [exact H |].
  unfold run. simpl. apply IH. now apply home_inv_step.
Qed.

(** X3. Whatever the user and the network do, in whatever order, the
    page renders exactly one of the spinner, the error alert and the
    result list; the spinner is rendered only while a search is pending. *)
Theorem home_shows_one_panel (events : list event) :
  panels (run events initialHome) = 1 /\
  (spinner_visible (run events initialHome) = true ->
   0 < pending (run events initialHome)).
Proof.
  destruct (home_inv_run events initialHome home_inv_initial)
    as (H1 & H2 & _).
  split; [| exact H2].
  unfold panels, spinner_visible, alert_visible, list_visible.
  destruct (loading (hook (run events initialHome))) eqn:L.
  - rewrite (H1 eq_refl). reflexivity.
  - simpl. now destruct (shown (error (hook (run events initialHome)))).
Qed.

(** X4. Whatever the user and the network do, the selected result is one
    of the results on the page, and every query in the history has a
    non-empty trimmed form, occurs once, and the history holds at most
    ten queries. *)
Theorem home_selection_and_history (events : list event) :
  (forall r, selectedResult (run events initialHome) = Some r ->
             In r (results (hook (run events initialHome)))) /\
  Forall (fun q => trim q <> []) (history (hist (run events initialHome))) /\
  List.NoDup (history (hist (run events initialHome))) /\
  length (history (hist (run events initialHome))) <= 10.
Proof.
  destruct (home_inv_run events initialHome home_inv_initial)
    as (_ & _ & H3 & H4 & H5 & H6).
  auto.
Qed.

Lemma overlapping_state (q : jsstring) (o0 : fetch_outcome) :
  trim q <> [] ->
  let st := run (overlapping q o0) initialHome in
  pending st = 2 /\ loading (hook st) = true /\ error (hook st) = None.
Proof.
  intros Hq. apply truthy_nonempty in Hq.
  unfold overlapping, run. simpl.
  unfold QueryInput.click, QueryInput.button_disabled, QueryInput.handleSearch.
  simpl. rewrite Hq. simpl. repeat split.
Qed.

(** X5. When two searches overlap, the first request to settle hides the
    spinner although the other is still pending; and when that first
    request failed and the second then succeeds, the page keeps the
    error of the first: the alert is rendered and the list with the
    second request's results is not. *)
Theorem overlapping_searches (q : jsstring) (o0 o_fail o_ok : fetch_outcome)
    (e : thrown) (rs : list SearchResult) :
  trim q <> [] ->
  try_block o_fail = inr e -> error_text e <> [] ->
  try_block o_ok = inl rs ->
  let one := run (overlapping q o0 ++ [Settle o_fail]) initialHome in
  let both := run (overlapping q o0 ++ [Settle o_fail; Settle o_ok]) initialHome in
  (spinner_visible one = false /\ pending one = 1) /\
  (pending both = 0 /\
   results (hook both) = rs /\
   error (hook both) = Some (error_text e) /\
   alert_visible both = true /\ list_visible both = false) /\
  error (search o_ok (hook one)) = None.
Proof.
  intros Hq Hfail Hne Hok. apply truthy_nonempty in Hne.
  apply truthy_nonempty in Hq.
  unfold overlapping, run. simpl.
  unfold QueryInput.click, QueryInput.button_disabled, QueryInput.handleSearch.
  simpl. rewrite Hq. simpl.
  unfold handleSearch_settle, search_settle, spinner_visible, alert_visible,
    list_visible. simpl.
  rewrite Hfail, Hok. simpl. rewrite Hne. repeat split.
Qed.

(** A 500 response settles first, an empty 200 response second. *)
Lemma overlapping_searches_witness :
  alert_visible
    (run (overlapping (lit "a") no_results ++ [Settle server_down; Settle no_results])
         initialHome) = true.
Proof.
  apply (overlapping_searches (lit "a") no_results server_down no_results
           (ThrownError (server_error_prefix ++ number_toString 500)) []).
  - vm_compute. discriminate.
  - reflexivity.
  - vm_compute. discriminate.
  - reflexivity.
Defined.

End HomeFacts.

Section HistoryFacts.
Import JS SearchHistory HistoryRuns.

Lemma history_inv_calls (cs : list call) (st : HistoryState) :
  history_inv st -> history_inv (apply_calls cs st).
Proof.
  revert st. induction cs as [| c cs IH]; intros st H; [exact H |].
  unfold apply_calls. simpl. apply IH. destruct H as (H1 & H2 & H3).
  destruct c as [q |]; unfold history_inv; simpl.
  - split; [now apply updated_NoDup | split; [apply updated_length | now left]].
  - split; [constructor | split; [lia | now right]].
Qed.

(** X6. After any sequence of [addToHistory] and [clearHistory] calls on
    an empty history, the list has no duplicates and at most ten
    entries, the store holds exactly the list (or nothing, when the list
    is empty after a clear), and a later mount restores the same list. *)
Theorem history_stays_consistent (cs : list call) :
  let st := apply_calls cs initialHistory in
  List.NoDup (history st) /\
  length (history st) <= 10 /\
  (saved st = Some (history st) \/ (history st = [] /\ saved st = None)) /\
  history (loadSaved (stored st) initialHistory) = history st.
Proof.
  assert (Hinit : history_inv initialHistory).
  { unfold history_inv. simpl. split; [constructor | split; [lia | now right]]. }
  destruct (history_inv_calls cs _ Hinit) as (H1 & H2 & H3).
  cbv zeta. split; [exact H1 | split; [exact H2 | split; [exact H3 |]]].
  unfold stored. destruct H3 as [H3 | [H3 H3']].
  - rewrite H3. reflexivity.
  - rewrite H3', H3. reflexivity.
Qed.

Lemma filter_absent (q : jsstring) (prev : list jsstring) :
  ~ In q prev -> List.filter (fun item => negb (streq item q)) prev = prev.
Proof.
  intros H. apply filter_all_true. intros x Hx.
  destruct (streq x q) eqn:E; [| reflexivity].
  apply streq_true in E. subst x. contradiction.
Qed.

(** X7. Adding a query that is not in the history puts it in front of
    the first nine entries: nothing is lost while the history holds
    fewer than ten entries, and from ten entries exactly the last one is
    dropped. *)
Theorem new_query_evicts_oldest (query : jsstring) (prev : list jsstring) :
  ~ In query prev ->
  updated query prev = query :: firstn 9 prev /\
  (length prev < 10 -> updated query prev = query :: prev) /\
  (length prev = 10 ->
   exists oldest, prev = firstn 9 prev ++ [oldest] /\
                  updated query prev ++ [oldest] = query :: prev).
Proof.
  intros H. assert (E : updated query prev = query :: firstn 9 prev).
  { rewrite updated_unfold. now rewrite filter_absent. }
  split; [exact E | split].
  - intros Hl. rewrite E. f_equal. apply List.firstn_all2. lia.
  - intros Hl. pose proof (List.firstn_skipn 9 prev) as Hs.
    destruct (skipn 9 prev) as [| oldest [| x rest]] eqn:Es.
    + apply (f_equal (@length _)) in Hs.
      rewrite List.length_app, List.length_firstn, Hl in Hs.
      simpl in Hs. lia.
    + exists oldest. split; [now symmetry |].
      rewrite E. simpl. now rewrite Hs.
    + apply (f_equal (@length _)) in Hs.
      rewrite List.length_app, List.length_firstn, Hl in Hs.
      simpl in Hs. lia.
Qed.

(** Adding "a" to the ten queries "0" to "9" drops "9". *)
Lemma new_query_evicts_oldest_witness :
  updated (lit "a") ten_queries = lit "a" :: firstn 9 ten_queries.
Proof.
  apply (new_query_evicts_oldest (lit "a") ten_queries).
  vm_compute. intros H.
  repeat (destruct H as [H | H]; [discriminate H |]). exact H.
Defined.

(** X8. Adding a query that is already in a duplicate-free history of
    at most ten entries only reorders it: the query moves to the front,
    the other entries keep their order, and no entry is lost. *)
Theorem known_query_moves_to_front (query : jsstring) (prev : list jsstring) :
  In query prev -> List.NoDup prev -> length prev <= 10 ->
  updated query prev =
    query :: List.filter (fun item => negb (streq item query)) prev /\
  Permutation (updated query prev) prev /\
  length (updated query prev) = length prev.
Proof.
  intros Hin Hnd Hlen.
  pose proof (filter_length_lt (fun item => negb (streq item query)) prev query Hin)
    as Hlt.
  cbv beta in Hlt. rewrite streq_refl in Hlt. specialize (Hlt eq_refl).
  assert (E : updated query prev =
              query :: List.filter (fun item => negb (streq item query)) prev).
  { rewrite updated_unfold. f_equal. apply List.firstn_all2. lia. }
  assert (P : Permutation (updated query prev) prev).
  { apply Stdlib.Sorting.Permutation.NoDup_Permutation.
    - now apply updated_NoDup.
    - exact Hnd.
    - intros x. rewrite E. simpl. rewrite List.filter_In. split.
      + intros [<- | [Hx _]]; assumption.
      + intros Hx. destruct (streq x query) eqn:Ex.
        * left. symmetry. now apply streq_true.
        * right. split; [exact Hx | reflexivity]. }
  split; [exact E | split; [exact P |]].
  now apply Permutation_length.
Qed.

(** Searching "b" again in the history a, b, c. *)
Lemma known_query_moves_to_front_witness :
  updated (lit "b") [lit "a"; lit "b"; lit "c"] = [lit "b"; lit "a"; lit "c"].
Proof.
  apply (known_query_moves_to_front (lit "b") [lit "a"; lit "b"; lit "c"]).
  - right. now left.
  - repeat constructor; simpl; intros H;
      repeat (destruct H as [H | H]; [discriminate H |]); exact H.
  - simpl. lia.
Defined.

End HistoryFacts.

Section ViewsFacts.
Import JS SearchResults SearchPhases SearchHistory Views Home.

Lemma render_card_meta (sel : option jsstring) (r : SearchResult) :
  card_meta (render_card sel r) <> Some [].
Proof.
  unfold render_card. simpl.
  destruct (shown (source r)), (shown (date r)), (shown (number r));
    simpl; discriminate.
Qed.

Lemma card_detail_fields (sel : option jsstring) (r : SearchResult) (d : Detail) :
  ResultDetail (Some r) = Some d ->
  card_fields (render_card sel r) = rev (map fst (detail_rows d)).
Proof.
  intros H. injection H as <-. unfold card_fields, render_card. simpl.
  destruct (description r) as [[| ? ?] |], (source r) as [[| ? ?] |],
    (date r) as [[| ? ?] |], (number r) as [[| ? ?] |]; reflexivity.
Qed.

(** X9. The list shows the hint exactly when there are no results and
    otherwise one card per result, in order, keyed by the result's id; a
    card never has an empty caption box; and a card shows the same
    optional fields as the detail pane of its result, in the opposite
    order. *)
Theorem list_and_detail_agree (results : list SearchResult) (sel : option jsstring) :
  match ResultsList results sel with
  | EmptyHint => results = []
  | Cards cs =>
      results <> [] /\ map card_key cs = map id results /\
      Forall (fun c => card_meta c <> Some []) cs
  end /\
  (forall index r, card_click results index = Some r -> In r results) /\
  ResultDetail None = None /\
  (forall r, exists d,
     ResultDetail (Some r) = Some d /\
     card_fields (render_card sel r) = rev (map fst (detail_rows d))).
Proof.
  split; [| split; [| split]].
  - destruct results as [| r rs]; [reflexivity |].
    unfold ResultsList. split; [discriminate | split].
    + rewrite List.map_map. reflexivity.
    + apply List.Forall_forall. intros c Hc.
      apply List.in_map_iff in Hc as [x [<- _]]. apply render_card_meta.
  - intros index r H. eapply List.nth_error_In. exact H.
  - reflexivity.
  - intros r. eexists. split; [reflexivity |]. now apply card_detail_fields.
Qed.

Lemma highlighted_one (rs : list SearchResult) (r : SearchResult) :
  List.NoDup (map id rs) -> In r rs ->
  length (List.filter highlighted (map (render_card (Some (id r))) rs)) = 1.
Proof.
  induction rs as [| x rs IH]; simpl; [tauto |].
  intros Hnd Hin. inversion Hnd as [| ? ? Hnotin Hnd']; subst.
  assert (Hnone : forall l, ~ In (id r) (map id l) ->
            List.filter highlighted (map (render_card (Some (id r))) l) = []).
  { induction l as [| y l IHl]; simpl; [reflexivity |]. intros Hn.
    unfold streq.
    rewrite bool_decide_eq_false_2 by (intros Heq; apply Hn; left; now symmetry).
    apply IHl. tauto. }
  destruct Hin as [-> | Hin].
  - rewrite streq_refl. simpl. now rewrite Hnone.
  - unfold streq at 1. rewrite bool_decide_eq_false_2.
    + now apply IH.
    + intros Heq. apply Hnotin. rewrite <- Heq. now apply List.in_map.
Qed.

(** X10. Whatever the user and the network do, when the results on the
    page have distinct ids the list highlights exactly one card if a
    result is selected and none otherwise. *)
Theorem selection_highlights_one_card (events : list event) :
  let st := run events initialHome in
  List.NoDup (map id (results (hook st))) ->
  highlighted_count (ResultsList (results (hook st)) (selectedId st)) =
    match selectedResult st with Some _ => 1 | None => 0 end.
Proof.
  cbv zeta. intros Hnd.
  destruct (home_inv_run events initialHome home_inv_initial)
    as (_ & _ & H3 & _).
  unfold selectedId.
  destruct (selectedResult (run events initialHome)) as [r |].
  - specialize (H3 r eq_refl).
    destruct (results (hook (run events initialHome))) as [| x rs] eqn:E;
      [destruct H3 |].
    unfold ResultsList, highlighted_count. now apply highlighted_one.
  - destruct (results (hook (run events initialHome))) as [| x rs];
      [reflexivity |].
    unfold ResultsList, highlighted_count.
    generalize (x :: rs). intros l. induction l; simpl; auto.
Qed.

(** After one search with two results, the second card is selected. *)
Lemma selection_highlights_one_card_witness :
  highlighted_count
    (ResultsList
       (results (hook (run [Click (lit "a"); Settle two_results; SelectResult 1]
                           initialHome)))
       (selectedId (run [Click (lit "a"); Settle two_results; SelectResult 1]
                        initialHome))) = 1.
Proof.
  apply (selection_highlights_one_card
           [Click (lit "a"); Settle two_results; SelectResult 1]).
  vm_compute. repeat constructor; simpl; intros H;
    repeat (destruct H as [H | H]; [discriminate H |]); exact H.
Defined.

End ViewsFacts.

Section CacheMoreFacts.
Import Py Cache.

Lemma search_key_inj (a b : string) : search_key a = search_key b -> a = b.
Proof. unfold search_key. simpl. intros H. now injection H. Qed.

Lemma get_cached_expired (query : string) (l : list CaseRecord) (ttl t0 t : Z)
    (db : gmap string entry) :
  (t0 + ttl <= t)%Z ->
  get_cached_result query t (cache_search_result query l ttl t0 db) = None.
Proof.
  intros H. unfold get_cached_result, cache_search_result, get, setex.
  rewrite lookup_insert_eq. simpl.
  destruct (Z.ltb_spec t (t0 + ttl)); [lia | reflexivity].
Qed.

Lemma get_cached_other (query q' : string) (l : list CaseRecord) (ttl t0 t : Z)
    (db : gmap string entry) :
  q' <> query ->
  get_cached_result q' t (cache_search_result query l ttl t0 db) =
  get_cached_result q' t db.
Proof.
  intros H. unfold get_cached_result, cache_search_result, get, setex.
  rewrite lookup_insert_ne; [reflexivity |].
  intros E. apply H. symmetry. now apply search_key_inj.
Qed.

Lemma cached_search_calls (_search : searcher) (query : string) (now : Z)
    (db : gmap string entry) :
  outbound_calls (search_cases _search query now db) <= 1.
Proof.
  unfold search_cases.
  destruct (truthy_list (get_cached_result query now db)); simpl; [lia |].
  destruct (_search query now); simpl; lia.
Qed.

(** X11. A list stored with a positive time to live is read back under
    its query until that time has passed and is gone from then on;
    storing it leaves the entries of all other queries as they were;
    and a second store under the same query replaces the first. *)
Theorem cache_entry_lifetime (query : string) (l : list CaseRecord) (ttl t0 : Z)
    (db : gmap string entry) :
  (0 < ttl)%Z ->
  (forall t, (t < t0 + ttl)%Z ->
     get_cached_result query t (cache_search_result query l ttl t0 db) = Some l) /\
  (forall t, (t0 + ttl <= t)%Z ->
     get_cached_result query t (cache_search_result query l ttl t0 db) = None) /\
  (forall q' t, q' <> query ->
     get_cached_result q' t (cache_search_result query l ttl t0 db) =
     get_cached_result q' t db) /\
  (forall l2 ttl2 t1,
     cache_search_result query l2 ttl2 t1 (cache_search_result query l ttl t0 db) =
     cache_search_result query l2 ttl2 t1 db).
Proof.
  intros _. split; [| split; [| split]].
  - intros t Ht. unfold get_cached_result, cache_search_result.
    now rewrite get_setex_same.
  - intros t Ht. now apply get_cached_expired.
  - intros q' t Hq. now apply get_cached_other.
  - intros l2 ttl2 t1. unfold cache_search_result, setex.
    apply insert_insert_eq.
Qed.

(** A list stored for an hour at instant 10 is gone at instant 3610. *)
Lemma cache_entry_lifetime_witness :
  get_cached_result "penalty" 3610
    (cache_search_result "penalty" [late_match] 3600 10 ∅) = None.
Proof.
  apply (cache_entry_lifetime "penalty" [late_match] 3600 10 ∅); lia.
Defined.

(** X12. One call of the cached [search_cases] makes at most one
    outbound search.  With none, the cache is untouched and the returned
    list is the cached, non-empty one.  A search that raises leaves the
    cache untouched and its exception leaves the function.  A returned
    list is the cached one or the one the search returned; after an
    outbound search that returned, the list (empty or not) is stored
    under the query for the next 3600 seconds and is gone afterwards. *)
Theorem cached_search_behaviour (_search : searcher) (query : string) (now : Z)
    (db : gmap string entry) :
  outbound_calls (search_cases _search query now db) <= 1 /\
  (outbound_calls (search_cases _search query now db) = 0 ->
   db_after (search_cases _search query now db) = db /\
   exists l, l <> [] /\ get_cached_result query now db = Some l /\
             returned (search_cases _search query now db) = Returns l) /\
  (forall e, truthy_list (get_cached_result query now db) = false ->
     _search query now = Raises e ->
     returned (search_cases _search query now db) = Raises e /\
     db_after (search_cases _search query now db) = db) /\
  (forall l, returned (search_cases _search query now db) = Returns l ->
     get_cached_result query now db = Some l \/ _search query now = Returns l) /\
  (forall l t, outbound_calls (search_cases _search query now db) = 1 ->
     returned (search_cases _search query now db) = Returns l ->
     ((t < now + 3600)%Z ->
      get_cached_result query t (db_after (search_cases _search query now db))
        = Some l) /\
     ((now + 3600 <= t)%Z ->
      get_cached_result query t (db_after (search_cases _search query now db))
        = None)).
Proof.
  unfold search_cases.
  destruct (get_cached_result query now db) as [[| c l0] |] eqn:G; simpl.
  - destruct (_search query now) as [rs | e] eqn:S; simpl.
    + split; [lia | split; [discriminate | split; [discriminate | split]]].
      * intros l H. right. exact H.
      * intros l t _ H. injection H as ->. split; intros Ht.
        -- apply get_cached_after_store. unfold default_ttl. lia.
        -- apply get_cached_expired. unfold default_ttl. lia.
    + split; [lia | split; [discriminate | split; [| split]]].
      * intros e0 _ H. injection H as ->. split; reflexivity.
      * discriminate.
      * discriminate.
  - split; [lia | split; [| split; [discriminate | split]]].
    + intros _. split; [reflexivity |]. exists (c :: l0).
      split; [discriminate | split; reflexivity].
    + intros l H. left. injection H as ->. reflexivity.
    + discriminate.
  - destruct (_search query now) as [rs | e] eqn:S; simpl.
    + split; [lia | split; [discriminate | split; [discriminate | split]]].
      * intros l H. right. exact H.
      * intros l t _ H. injection H as ->. split; intros Ht.
        -- apply get_cached_after_store. unfold default_ttl. lia.
        -- apply get_cached_expired. unfold default_ttl. lia.
    + split; [lia | split; [discriminate | split; [| split]]].
      * intros e0 _ H. injection H as ->. split; reflexivity.
      * discriminate.
      * discriminate.
Qed.

End CacheMoreFacts.

Section SharedCacheFacts.
Import Py.

Lemma of_cache_get (query : string) (now : Z) (db : gmap string Cache.entry) :
  SharedCache.get_cached_result query now (SharedCache.of_cache db) =
  Cache.get_cached_result query now db.
Proof.
  unfold SharedCache.get_cached_result, SharedCache.of_cache,
    Cache.get_cached_result, Cache.get.
  rewrite lookup_fmap.
  destruct (db !! Cache.search_key query) as [e |]; simpl; [| reflexivity].
  now destruct (now <? Cache.expires_at e)%Z.
Qed.

Lemma of_cache_store (query : string) (l : list CaseRecord) (ttl now : Z)
    (db : gmap string Cache.entry) :
  SharedCache.of_cache (Cache.cache_search_result query l ttl now db) =
  SharedCache.cache_search_result query l ttl now (SharedCache.of_cache db).
Proof.
  unfold SharedCache.of_cache, Cache.cache_search_result, Cache.setex,
    SharedCache.cache_search_result.
  now rewrite fmap_insert.
Qed.

(** On lists of case records the two embeddings of the cached search
    agree. *)
Lemma of_cache_search_cases (_search : Cache.searcher) (query : string) (now : Z)
    (db : gmap string Cache.entry) :
  SharedCache.search_cases _search query now (SharedCache.of_cache db) =
  {| SharedCache.returned := Cache.returned (Cache.search_cases _search query now db);
     SharedCache.db_after :=
       SharedCache.of_cache (Cache.db_after (Cache.search_cases _search query now db));
     SharedCache.outbound_calls :=
       Cache.outbound_calls (Cache.search_cases _search query now db) |}.
Proof.
  unfold SharedCache.search_cases, Cache.search_cases. rewrite of_cache_get.
  destruct (truthy_list (Cache.get_cached_result query now db)); [reflexivity |].
  destruct (_search query now); simpl; [| reflexivity].
  now rewrite of_cache_store.
Qed.

Lemma shared_get_after_store {J} (query : string) (l : list J) (t0 t1 : Z)
    (db : gmap string (SharedCache.entry J)) :
  (t1 < t0 + 3600)%Z ->
  SharedCache.get_cached_result query t1
    (SharedCache.cache_search_result query l Cache.default_ttl t0 db) = Some l.
Proof.
  intros H. unfold SharedCache.get_cached_result, SharedCache.cache_search_result.
  rewrite lookup_insert_eq. simpl. unfold Cache.default_ttl.
  destruct (Z.ltb_spec t1 (t0 + 3600)); [reflexivity | lia].
Qed.

(** X13. The case search and the norm search store their lists under
    the same key, "search:" followed by the query.  After a case search
    that missed the cache and found at least one case, a norm search for
    the same query within the hour returns that list of cases and does
    not call the retriever; and the other way round. *)
Theorem norm_and_case_search_share_entries {J}
    (_search retrieve : string -> Z -> outcome (list J))
    (query : string) (t0 t1 : Z) (db : gmap string (SharedCache.entry J))
    (found : list J) :
  truthy_list (SharedCache.get_cached_result query t0 db) = false ->
  found <> [] -> (t0 <= t1 < t0 + 3600)%Z ->
  (_search query t0 = Returns found ->
   SharedCache.search_norm_cached retrieve query t1
     (SharedCache.db_after (SharedCache.search_cases _search query t0 db)) =
   {| SharedCache.returned := Returns found;
      SharedCache.db_after :=
        SharedCache.db_after (SharedCache.search_cases _search query t0 db);
      SharedCache.outbound_calls := 0 |}) /\
  (retrieve query t0 = Returns found ->
   SharedCache.search_cases _search query t1
     (SharedCache.db_after (SharedCache.search_norm_cached retrieve query t0 db)) =
   {| SharedCache.returned := Returns found;
      SharedCache.db_after :=
        SharedCache.db_after (SharedCache.search_norm_cached retrieve query t0 db);
      SharedCache.outbound_calls := 0 |}).
Proof.
  intros Hmiss Hne Ht. split; intros Hs.
  - unfold SharedCache.search_cases at 1 2. rewrite Hmiss, Hs. simpl.
    unfold SharedCache.search_norm_cached.
    rewrite shared_get_after_store by lia.
    destruct found as [| x xs]; [congruence | reflexivity].
  - unfold SharedCache.search_norm_cached at 1 2. rewrite Hmiss, Hs. simpl.
    unfold SharedCache.search_cases.
    rewrite shared_get_after_store by lia.
    destruct found as [| x xs]; [congruence | reflexivity].
Qed.

(** A norm search one minute after a case search for the same query
    returns the case. *)
Lemma norm_and_case_search_share_entries_witness :
  SharedCache.returned
    (SharedCache.search_norm_cached SharedCache.finds_norm "penalty" 60
       (SharedCache.db_after
          (SharedCache.search_cases SharedCache.finds_case "penalty" 0 ∅))) =
  Returns [SharedCache.CaseObj "A40-1/2025"].
Proof.
  destruct (norm_and_case_search_share_entries
              SharedCache.finds_case SharedCache.finds_norm
              "penalty" 0 60 ∅ [SharedCache.CaseObj "A40-1/2025"]) as [H _].
  - vm_compute. reflexivity.
  - discriminate.
  - lia.
  - rewrite (H eq_refl). reflexivity.
Defined.

End SharedCacheFacts.

Section CaseSearchMoreFacts.
Import Py CaseSearch.

(** X14. For every behaviour of the three sources, [search_cases] returns
    a list (never [None]), calls the first source first and at most
    three sources, in priority order, and returns a non-empty list
    exactly when the first or the second source returned matches.  What
    the third source does has no influence on the returned value or on
    the calls made. *)
Theorem search_cases_chain (w : sources) :
  (exists l, cases (fst (search_cases w)) = Some l /\
     (l <> [] <->
      (exists v, try_and_return w kad_arbitr = Some v) \/
      (exists v, try_and_return w sudact = Some v))) /\
  (exists n, 0 < n <= 3 /\ snd (search_cases w) = firstn n SOURCES_PRIORITY) /\
  (forall w' : sources,
     w' kad_arbitr = w kad_arbitr -> w' sudact = w sudact ->
     search_cases w' = search_cases w).
Proof.
  split; [| split].
  - destruct (search_cases_behaviour w)
      as [(v & Hv & Hw & E) | [(H1 & v & Hv & Hw & E) | (H1 & H2 & E)]];
      rewrite E; simpl.
    + destruct v as [[| c l] |]; try discriminate Hv.
      exists (c :: l). split; [reflexivity |].
      split; [| discriminate]. intros _. left. exists (Some (c :: l)).
      unfold try_and_return. now rewrite Hw.
    + destruct v as [[| c l] |]; try discriminate Hv.
      exists (c :: l). split; [reflexivity |].
      split; [| discriminate]. intros _. right. exists (Some (c :: l)).
      unfold try_and_return. now rewrite Hw.
    + exists []. split; [reflexivity |]. split; [congruence |].
      rewrite H1, H2. intros [[v H] | [v H]]; discriminate H.
  - unfold search_cases.
    destruct (try_and_return w kad_arbitr); [exists 1; split; [lia | reflexivity] |].
    destruct (try_and_return w sudact); [exists 2; split; [lia | reflexivity] |].
    exists 3. split; [lia | reflexivity].
  - intros w' H1 H2. unfold search_cases, try_and_return. now rewrite H1, H2.
Qed.

End CaseSearchMoreFacts.

Section SudactFacts.
Import Py Sudact.

Lemma lstrip_head (s : pystr) (c : N) (r : pystr) :
  lstrip s = c :: r -> isspace c = false.
Proof.
  induction s as [| d s IH]; simpl; [discriminate |].
  destruct (isspace d) eqn:E; [exact IH |].
  intros H. injection H as -> _. exact E.
Qed.

Lemma lstrip_split (s : pystr) : exists p, s = p ++ lstrip s.
Proof.
  induction s as [| d s [p IH]]; simpl; [now exists [] |].
  destruct (isspace d); [| now exists []].
  exists (d :: p). simpl. now f_equal.
Qed.

Lemma rstrip_split (t : pystr) : exists q, t = rstrip t ++ q.
Proof.
  unfold rstrip. destruct (lstrip_split (rev t)) as [p Hp].
  exists (rev p). apply (f_equal (@rev N)) in Hp.
  rewrite rev_involutive, rev_app_distr in Hp. exact Hp.
Qed.

Lemma strip_stripped (s : pystr) : stripped (strip s).
Proof.
  unfold stripped, strip. split.
  - destruct (rstrip (lstrip s)) as [| c r] eqn:E; [exact I |].
    destruct (rstrip_split (lstrip s)) as [q Hq]. rewrite E in Hq.
    simpl in Hq. now apply lstrip_head in Hq.
  - unfold rstrip. rewrite rev_involutive.
    destruct (lstrip (rev (lstrip s))) as [| c r] eqn:E; [exact I |].
    now apply lstrip_head in E.
Qed.

Lemma well_formed_dec (item : law_doc) : {well_formed item} + {~ well_formed item}.
Proof.
  unfold well_formed.
  destruct (doc_name item) as [n |];
    [| right; intros [[x H] _]; discriminate H].
  destruct (anchor item) as [[h |] |];
    [| right; intros [_ [[x H] _]]; discriminate H
     | right; intros [_ [[x H] _]]; discriminate H].
  destruct (doc_date item) as [d |];
    [| right; intros [_ [_ [x H]]]; discriminate H].
  left. repeat split; eexists; reflexivity.
Qed.

Lemma parse_item_returns (item : law_doc) :
  well_formed item ->
  exists r, parse_item item = Returns r /\
            stripped (title r) /\ stripped (date r) /\
            anchor item = Some (Some (url r)).
Proof.
  intros [[n Hn] [[h Hh] [d Hd]]]. unfold parse_item. rewrite Hn, Hh, Hd.
  eexists. split; [reflexivity |]. simpl.
  split; [apply strip_stripped | split; [apply strip_stripped | reflexivity]].
Qed.

Lemma parse_item_raises (item : law_doc) :
  ~ well_formed item -> exists e, parse_item item = Raises e.
Proof.
  intros H. unfold parse_item, well_formed in *.
  destruct (doc_name item) as [n |]; [| eauto].
  destruct (anchor item) as [[h |] |]; [| eauto | eauto].
  destruct (doc_date item) as [d |]; [| eauto].
  exfalso. apply H. repeat split; eexists; reflexivity.
Qed.

(** X15. [search_sudact] is all or nothing.  When every listed entry has
    a name, a link with an address and a date, it returns one result per
    entry, in order, with the address as found and with name and date
    free of white space at both ends.  When one entry lacks any of the
    three, the call raises and no result is returned, whatever the other
    entries hold; a failed request raises as well. *)
Theorem search_sudact_all_or_nothing (items : list law_doc) :
  (Forall well_formed items ->
   exists rs, search_sudact (Returns items) = Returns rs /\
              length rs = length items /\
              Forall (fun r => stripped (title r) /\ stripped (date r)) rs /\
              map (fun r => Some (Some (url r))) rs = map anchor items) /\
  (~ Forall well_formed items ->
   exists e, search_sudact (Returns items) = Raises e) /\
  (forall e, search_sudact (Raises e) = Raises e).
Proof.
  split; [| split; [| reflexivity]].
  - induction 1 as [| item items Hi _ (rs & E & Hl & Hs & Hu)]; simpl.
    + exists []. repeat split; constructor.
    + destruct (parse_item_returns item Hi) as (r & Er & Ht & Hd & Ha).
      simpl in E. exists (r :: rs). rewrite Er, E. simpl.
      split; [reflexivity | split; [now f_equal | split]].
      * constructor; [now split | exact Hs].
      * now rewrite Ha, Hu.
  - induction items as [| item items IH]; intros H.
    + exfalso. apply H. constructor.
    + simpl. destruct (well_formed_dec item) as [Hw | Hw].
      * destruct (parse_item_returns item Hw) as (r & Er & _). rewrite Er.
        destruct IH as [e He].
        { intros Hall. apply H. now constructor. }
        simpl in He. rewrite He. eauto.
      * destruct (parse_item_raises item Hw) as [e Er]. rewrite Er. eauto.
Qed.

(** A page with one complete entry yields its stripped name; with an
    undated entry after it, the page yields nothing. *)
Lemma search_sudact_all_or_nothing_witness :
  (exists rs, search_sudact (Returns [complete_entry]) = Returns rs /\
              map title rs = [ascii_units "Decision 1"]) /\
  exists e, search_sudact (Returns [complete_entry; undated_entry]) = Raises e.
Proof.
  split.
  - eexists. split; reflexivity.
  - apply (proj1 (proj2 (search_sudact_all_or_nothing
                            [complete_entry; undated_entry]))).
    intros H. inversion H as [| ? ? _ H']; subst.
    inversion H' as [| ? ? [_ [_ [d Hd]]] _]; subst. discriminate Hd.
Defined.

End SudactFacts.

Section ComprehensiveFacts.
Import Py Comprehensive.

(** X16. [comprehensive_search] makes at most one outbound case search,
    and none when the retriever raises: then the exception leaves the
    function and the cache is untouched.  When it returns, the norms are
    the retriever's, "local_db" is the first source listed, and
    "kad.arbitr.ru" is listed exactly when the returned cases are not
    empty, also when they came from the cache. *)
Theorem comprehensive_search_sources {Norm} (retrieve : outcome (list Norm))
    (_search : Cache.searcher) (query : string) (now : Z)
    (db : gmap string Cache.entry) :
  outbound_calls (comprehensive_search retrieve _search query now db) <= 1 /\
  (forall e, retrieve = Raises e ->
     comprehensive_search retrieve _search query now db =
       {| returned := Raises e; db_after := db; outbound_calls := 0 |}) /\
  (forall res,
     returned (comprehensive_search retrieve _search query now db) = Returns res ->
     retrieve = Returns (norms res) /\
     hd_error (sources_used res) = Some "local_db" /\
     (In "kad.arbitr.ru" (sources_used res) <-> cases res <> []) /\
     List.NoDup (sources_used res)) /\
  (forall ns l, retrieve = Returns ns ->
     Cache.get_cached_result query now db = Some l -> l <> [] ->
     comprehensive_search retrieve _search query now db =
       {| returned := Returns {| norms := ns; cases := l;
                                 sources_used := ["local_db"; "kad.arbitr.ru"] |};
          db_after := db; outbound_calls := 0 |}).
Proof.
  pose proof (cached_search_calls _search query now db) as Hle.
  unfold comprehensive_search.
  split; [| split; [| split]].
  - destruct retrieve as [ns | e]; simpl; [| lia].
    destruct (Cache.returned (Cache.search_cases _search query now db));
      simpl; exact Hle.
  - intros e ->. reflexivity.
  - intros res. destruct retrieve as [ns | e]; simpl; [| discriminate].
    destruct (Cache.returned (Cache.search_cases _search query now db))
      as [[| c cs] | e]; simpl; intros H; try discriminate H;
      injection H as <-; simpl.
    + split; [reflexivity | split; [reflexivity | split]].
      * split; [intros [H | []]; discriminate H | congruence].
      * repeat constructor. intros [].
    + split; [reflexivity | split; [reflexivity | split]].
      * split; [discriminate | intros _; right; now left].
      * repeat constructor; simpl; intros H;
          repeat (destruct H as [H | H]; [discriminate H |]); exact H.
  - intros ns l -> Hget Hne.
    rewrite (search_cases_hit _search query now db l Hget Hne). simpl.
    destruct l as [| c cs]; [congruence | reflexivity].
Qed.

End ComprehensiveFacts.

Section LLMMoreFacts.
Import Py LLM.
Context {W : Type}.

(** X17. The three-provider [generate] asks the providers in priority
    order and stops at the first that answers: when the primary answers,
    no other provider is asked; when the primary fails and the fallback
    answers, the third is not asked; and when both fail, the outcome is
    whatever the third provider returns or raises. *)
Theorem generate3_priority_order (mc : MultiLLMClient3 W) (sys : option string)
    (prompt : string) (w0 : W) :
  (forall resp w1 log1,
     client_generate (primary_client mc) sys prompt w0 = (Returns resp, w1, log1) ->
     generate3 mc sys prompt w0 = (Returns resp, w1, log1)) /\
  (forall e1 w1 log1 resp w2 log2,
     client_generate (primary_client mc) sys prompt w0 = (Raises e1, w1, log1) ->
     client_generate (fallback_client mc) sys prompt w1 = (Returns resp, w2, log2) ->
     generate3 mc sys prompt w0 = (Returns resp, w2, log1 ++ log2)) /\
  (forall e1 w1 log1 e2 w2 log2 r3 w3 log3,
     client_generate (primary_client mc) sys prompt w0 = (Raises e1, w1, log1) ->
     client_generate (fallback_client mc) sys prompt w1 = (Raises e2, w2, log2) ->
     client_generate (secondary_fallback mc) sys prompt w2 = (r3, w3, log3) ->
     generate3 mc sys prompt w0 = (r3, w3, log1 ++ log2 ++ log3)).
Proof.
  split; [| split].
  - intros resp w1 log1 H. unfold generate3, bind. rewrite H. simpl.
    now rewrite List.app_nil_r.
  - intros e1 w1 log1 resp w2 log2 H1 H2. unfold generate3, bind.
    rewrite H1, H2. simpl. now rewrite List.app_nil_r.
  - intros e1 w1 log1 e2 w2 log2 r3 w3 log3 H1 H2 H3. unfold generate3, bind.
    now rewrite H1, H2, H3.
Qed.

End LLMMoreFacts.

Section LLMMoreRuns.
Import Py LLM LLMSamples.

(** With OpenRouter answering, one attempt is made and the other two
    providers are not asked. *)
Lemma generate3_priority_order_witness :
  generate3 primary_up None "Article 330 of the Civil Code" 0 =
    (Returns {| content := "Article 330"; provider := "openrouter" |}, 1,
     [Attempt "openrouter" 0]).
Proof.
  apply (proj1 (generate3_priority_order primary_up None
                  "Article 330 of the Civil Code" 0)).
  reflexivity.
Defined.

End LLMMoreRuns.
